(** * Kong Terraform provider: configuration reconciliation and identity engine

    A shallow embedding of [kong/resource_kong_plugin.go] and of
    [kong/resource_kong_consumer_plugin_config.go], with the properties of
    the identifier codec, the configuration normaliser, the drift filter and
    the two configuration encoders.

    Go strings are byte strings and are modelled by [string] (a list of
    8-bit characters); Go maps [map[string]interface{}] by an optional
    [gmap string value], [None] being the nil map. *)

From Stdlib Require Import Ascii NArith.
From stdpp Require Import gmap strings list fin_maps sorting.

#[local] Set Warnings "-register-all".

(** ** Go strings *)

Module strings.

Lemma app_cons (c : ascii) (s t : string) :
  String c s +:+ t = String c (s +:+ t).
Proof. reflexivity. Qed.

Lemma app_nil_l (s : string) : "" +:+ s = s.
Proof. reflexivity. Qed.

Lemma app_nil_r (s : string) : s +:+ "" = s.
Proof. induction s as [|c s IH]; [done|]. by rewrite app_cons, IH. Qed.

Lemma app_assoc (s1 s2 s3 : string) : (s1 +:+ s2) +:+ s3 = s1 +:+ s2 +:+ s3.
Proof. induction s1 as [|c s1 IH]; [done|]. by rewrite !app_cons, IH. Qed.

(** [strings.ContainsRune(s, c)] for a one-byte [c]. *)
Fixpoint Contains (s : string) (c : ascii) : bool :=
  match s with
  | "" => false
  | String x s' => if decide (x = c) then true else Contains s' c
  end.

(** [strings.Split(s, sep)] for a one-byte separator, the only way the
    provider calls it: the pieces of [s] between consecutive occurrences
    of [sep], left to right; a string without [sep] is its own single
    piece, and so is the empty string. *)
Fixpoint Split (s : string) (sep : ascii) : list string :=
  match s with
  | "" => [""]
  | String x s' =>
      if decide (x = sep) then "" :: Split s' sep
      else match Split s' sep with
           | [] => [String x ""]
           | p :: ps => String x p :: ps
           end
  end.

(** [s[n:]], the whole of [s] gone when [n] exceeds its length. *)
Fixpoint drop (n : nat) (s : string) : string :=
  match n, s with
  | S n', String _ s' => drop n' s'
  | _, _ => s
  end.

(** [s[:n]]. *)
Fixpoint take (n : nat) (s : string) : string :=
  match n, s with
  | S n', String x s' => String x (take n' s')
  | _, _ => ""
  end.

(** [strings.HasPrefix(s, prefix)]. *)
Fixpoint HasPrefix (s prefix : string) {struct prefix} : bool :=
  match prefix with
  | "" => true
  | String a p =>
      match s with
      | String b s' => if decide (a = b) then HasPrefix s' p else false
      | "" => false
      end
  end.

(** [strings.Join(l, sep)]. *)
Fixpoint Join (l : list string) (sep : string) : string :=
  match l with
  | [] => ""
  | [x] => x
  | x :: l' => x +:+ sep +:+ Join l' sep
  end.

End strings.

(** The code of a byte, and the byte of a code below 256. *)
Definition ord (c : ascii) : N := N_of_ascii c.
Definition chr (n : N) : ascii := ascii_of_N n.

(** The double quote. *)
Definition dquote : ascii := "034"%char.

(** ** Errors

    Every error the provider builds itself comes from [fmt.Errorf]: a message,
    possibly ending in the [%v] rendering of the error it wraps.  The other
    constructors are the errors of the collaborators: the two ways
    [json.Unmarshal] fails, and whatever the remote client reports.  A Go
    [error] that may be nil is an [option error]. *)

Inductive error : Type :=
  | SyntaxError                 (* *json.SyntaxError: the text is not JSON *)
  | UnmarshalTypeError          (* *json.UnmarshalTypeError: JSON of the wrong shape *)
  | RemoteError (msg : string)  (* reported by the gokong client *)
  | Errorf (msg : string) (cause : option error).

(** A Go function returning [(T, error)] returns a value or an error. *)
Inductive result (A : Type) : Type :=
  | Ok (a : A)
  | Err (e : error).
Arguments Ok {A} a.
Arguments Err {A} e.

#[export] Instance result_ret : MRet result := λ A a, Ok a.
#[export] Instance result_bind : MBind result := λ A B f r,
  match r with Ok a => f a | Err e => Err e end.

(** A Go function with a type assertion in it returns or panics. *)
Inductive outcome (A : Type) : Type :=
  | Returns (a : A)
  | Panics.
Arguments Returns {A} a.
Arguments Panics {A}.

(** ** IdentifierCodec *)

Record idFields : Type := mkIdFields {
  consumerId : string;
  pluginName : string;
  id : string
}.

Definition pipe : ascii := "|"%char.

Definition buildId (consumerId pluginName configId : string) : string :=
  consumerId +:+ "|" +:+ pluginName +:+ "|" +:+ configId.

(** The error of [splitIdIntoFields], the spec's [MalformedIdentifier]. *)
Definition MalformedIdentifier (id : string) : error :=
  Errorf ("failed to calculate consumer plugin config id, should be pipe separated as consumerId|pluginName|id found: " +:+ id) None.

Definition splitIdIntoFields (id : string) : result idFields :=
  let idSplit := strings.Split id pipe in
  if decide (length idSplit ≠ 3) then Err (MalformedIdentifier id)
  else Ok (mkIdFields (idSplit !!! 0) (idSplit !!! 1) (idSplit !!! 2)).


(** ** unicode/utf8 and unicode/utf16

    Runes are natural numbers.  The bit fields of the encodings are written
    with sums, products, quotients and remainders of powers of two, which is
    what Go's masks and shifts compute on the ranges concerned. *)

Module utf8.

Definition RuneError : N := 0xFFFD.
Definition MaxRune : N := 0x10FFFF.

Definition between (lo hi : N) (b : ascii) : bool :=
  (lo <=? ord b)%N && (ord b <=? hi)%N.

(** A continuation byte, [10xxxxxx]. *)
Definition cont (b : ascii) : bool := between 0x80 0xBF b.

(** The range Go's [acceptRanges] gives the second byte after the first
    byte [b0] of a three- or four-byte sequence. *)
Definition second (b0 b1 : ascii) : bool :=
  let x := ord b0 in
  if (x =? 0xE0)%N then between 0xA0 0xBF b1
  else if (x =? 0xED)%N then between 0x80 0x9F b1
  else if (x =? 0xF0)%N then between 0x90 0xBF b1
  else if (x =? 0xF4)%N then between 0x80 0x8F b1
  else cont b1.

(** [utf8.DecodeRune]: the first rune of [s] and its width in bytes;
    [(RuneError, 0)] on the empty string and [(RuneError, 1)] when [s]
    does not start with a well-formed sequence. *)
Definition DecodeRune (s : string) : N * nat :=
  match s with
  | "" => (RuneError, 0)
  | String b0 r =>
      let x := ord b0 in
      if (x <? 0x80)%N then (x, 1)
      else if between 0xC2 0xDF b0 then
        match r with
        | String b1 _ =>
            if cont b1 then (((x - 0xC0) * 64 + (ord b1 - 0x80))%N, 2)
            else (RuneError, 1)
        | _ => (RuneError, 1)
        end
      else if between 0xE0 0xEF b0 then
        match r with
        | String b1 (String b2 _) =>
            if second b0 b1 && cont b2
            then (((x - 0xE0) * 4096 + (ord b1 - 0x80) * 64 + (ord b2 - 0x80))%N, 3)
            else (RuneError, 1)
        | _ => (RuneError, 1)
        end
      else if between 0xF0 0xF4 b0 then
        match r with
        | String b1 (String b2 (String b3 _)) =>
            if second b0 b1 && cont b2 && cont b3
            then (((x - 0xF0) * 262144 + (ord b1 - 0x80) * 4096
                   + (ord b2 - 0x80) * 64 + (ord b3 - 0x80))%N, 4)
            else (RuneError, 1)
        | _ => (RuneError, 1)
        end
      else (RuneError, 1)
  end.

Definition enc3 (r : N) : string :=
  String (chr (0xE0 + r / 4096))
    (String (chr (0x80 + (r / 64) mod 64)) (String (chr (0x80 + r mod 64)) "")).

(** [utf8.EncodeRune]: surrogates and runes beyond [MaxRune] are written
    as [RuneError]. *)
Definition EncodeRune (r : N) : string :=
  if (r <? 0x80)%N then String (chr r) ""
  else if (r <? 0x800)%N then
    String (chr (0xC0 + r / 64)) (String (chr (0x80 + r mod 64)) "")
  else if (MaxRune <? r)%N || ((0xD800 <=? r)%N && (r <? 0xE000)%N) then
    enc3 RuneError
  else if (r <? 0x10000)%N then enc3 r
  else
    String (chr (0xF0 + r / 262144))
      (String (chr (0x80 + (r / 4096) mod 64))
         (String (chr (0x80 + (r / 64) mod 64))
            (String (chr (0x80 + r mod 64)) ""))).

(** One step of a walk over the runes of [s]: whether [s] starts with a
    well-formed sequence, and what follows it. *)
Definition valid_step (s : string) : option string :=
  let '(r, size) := DecodeRune s in
  if decide (r = RuneError ∧ size = 1) then None
  else Some (strings.drop size s).

Fixpoint Valid_go (fuel : nat) (s : string) : bool :=
  match fuel, s with
  | _, "" => true
  | 0, _ => false
  | S fuel', _ =>
      match valid_step s with
      | Some rest => Valid_go fuel' rest
      | None => false
      end
  end.

(** [utf8.ValidString]. *)
Definition ValidString (s : string) : bool := Valid_go (String.length s) s.

End utf8.

Module utf16.

(** [utf16.IsSurrogate]. *)
Definition IsSurrogate (r : N) : bool := (0xD800 <=? r)%N && (r <? 0xE000)%N.

(** [utf16.DecodeRune] of a pair, the second half possibly missing
    (Go passes [-1] then): [RuneError] unless the pair is a high
    surrogate followed by a low one. *)
Definition DecodeRune (r1 : N) (r2 : option N) : N :=
  match r2 with
  | Some r2 =>
      if (0xD800 <=? r1)%N && (r1 <? 0xDC00)%N
         && (0xDC00 <=? r2)%N && (r2 <? 0xE000)%N
      then ((r1 - 0xD800) * 1024 + (r2 - 0xDC00) + 0x10000)%N
      else utf8.RuneError
  | None => utf8.RuneError
  end.

End utf16.

(** ** encoding/json

    The part of Go's [encoding/json] the provider relies on: [Unmarshal]
    into a [map[string]interface{}] and [Marshal] of such a map.

    How a number literal becomes a [float64] and how a [float64] is written
    back ([strconv]) is left to a [Float64] instance: [ParseFloat] may
    refuse a literal (out of range), and [FormatFloat] writes a float the
    way the encoder does.  The floats are those a decoder produces, so none
    is a NaN or an infinity. *)

Class Float64 : Type := {
  float64 : Type;
  ParseFloat : string → option float64;
  FormatFloat : float64 → string
}.

(** What an [interface{}] holds after decoding: [nil], a [bool], a
    [float64], a [string], a [[]interface{}] or a
    [map[string]interface{}]. *)
Inductive value `{Float64} : Type :=
  | VNil
  | VBool (b : bool)
  | VFloat (f : float64)
  | VString (s : string)
  | VSlice (l : list value)
  | VMap (m : gmap string value).

(** A [map[string]interface{}] variable: [None] is the nil map. *)
Abbreviation gomap := (option (gmap string value)).

Module json.
Section json.
Context `{Float64}.

(** *** Lexical level *)

Definition isSpace (c : ascii) : bool :=
  bool_decide (c = " "%char) || bool_decide (c = "009"%char)
  || bool_decide (c = "013"%char) || bool_decide (c = "010"%char).

Fixpoint skip_ws (s : string) : string :=
  match s with
  | String c r => if isSpace c then skip_ws r else s
  | "" => ""
  end.

Definition is_digit (c : ascii) : bool := utf8.between 48 57 c.

Definition hexval (c : ascii) : option N :=
  if is_digit c then Some (ord c - 48)%N
  else if utf8.between 97 102 c then Some (ord c - 87)%N
  else if utf8.between 65 70 c then Some (ord c - 55)%N
  else None.

Definition is_hex (c : ascii) : bool :=
  match hexval c with Some _ => true | None => false end.

(** The digit ["0123456789abcdef"[n]]. *)
Definition hexdigit (n : N) : ascii :=
  if (n <? 10)%N then chr (48 + n) else chr (87 + n).

(** The longest prefix of digits, and what follows. *)
Fixpoint span_digits (s : string) : string * string :=
  match s with
  | String c r =>
      if is_digit c then let '(ds, r') := span_digits r in (String c ds, r')
      else ("", s)
  | "" => ("", "")
  end.

Definition scan_digits1 (s : string) : option (string * string) :=
  let '(ds, r) := span_digits s in
  if decide (ds = "") then None else Some (ds, r).

Definition scan_int (s : string) : option (string * string) :=
  match s with
  | String c r =>
      if bool_decide (c = "0"%char) then Some ("0", r)
      else if is_digit c then Some (span_digits s)
      else None
  | "" => None
  end.

Definition scan_frac (s : string) : option (string * string) :=
  match s with
  | String "." r => '(ds, r') ← scan_digits1 r; Some (String "." ds, r')
  | _ => Some ("", s)
  end.

Definition scan_exp (s : string) : option (string * string) :=
  match s with
  | String c r =>
      if bool_decide (c = "e"%char) || bool_decide (c = "E"%char) then
        match r with
        | String g r1 =>
            if bool_decide (g = "+"%char) || bool_decide (g = "-"%char)
            then '(ds, r') ← scan_digits1 r1; Some (String c (String g ds), r')
            else '(ds, r') ← scan_digits1 r; Some (String c ds, r')
        | "" => None
        end
      else Some ("", s)
  | "" => Some ("", s)
  end.

(** The scanner on a number: the literal at the head of [s], as long as
    the grammar allows ([-? int frac? exp?]), and what follows. *)
Definition scan_number (s : string) : option (string * string) :=
  let '(sign, s0) :=
    match s with String "-" r => ("-", r) | _ => ("", s) end in
  '(i, s1) ← scan_int s0;
  '(f, s2) ← scan_frac s1;
  '(e, s3) ← scan_exp s2;
  Some (sign +:+ i +:+ f +:+ e, s3).

Definition simple_escape (e : ascii) : bool :=
  bool_decide (e = dquote) || bool_decide (e = "\"%char)
  || bool_decide (e = "/"%char) || bool_decide (e = "b"%char)
  || bool_decide (e = "f"%char) || bool_decide (e = "n"%char)
  || bool_decide (e = "r"%char) || bool_decide (e = "t"%char).

Definition cons2 (p : string) (o : option (string * string)) :
    option (string * string) :=
  '(body, rest) ← o; Some (p +:+ body, rest).

(** The scanner inside a string literal, after the opening quote: the
    body of the literal as written, escapes included, and what follows
    the closing quote.  Control characters and ill-formed escapes are
    syntax errors; bytes above 127 pass unexamined. *)
Fixpoint scan_string (s : string) : option (string * string) :=
  match s with
  | "" => None
  | String c r =>
      if bool_decide (c = dquote) then Some ("", r)
      else if bool_decide (c = "\"%char) then
        match r with
        | String e r1 =>
            if simple_escape e then
              cons2 (String c (String e "")) (scan_string r1)
            else if bool_decide (e = "u"%char) then
              match r1 with
              | String h1 (String h2 (String h3 (String h4 r2))) =>
                  if is_hex h1 && is_hex h2 && is_hex h3 && is_hex h4
                  then cons2 (String c (String e (String h1 (String h2
                                (String h3 (String h4 ""))))))
                             (scan_string r2)
                  else None
              | _ => None
              end
            else None
        | "" => None
        end
      else if (ord c <? 0x20)%N then None
      else cons2 (String c "") (scan_string r)
  end.

(** [getu4]: the rune of a [\uXXXX] escape at the head of [s], if there
    is one. *)
Definition getu4 (s : string) : option N :=
  match s with
  | String "\" (String "u" (String h1 (String h2 (String h3 (String h4 _))))) =>
      a ← hexval h1; b ← hexval h2; c ← hexval h3; d ← hexval h4;
      Some (a * 4096 + b * 256 + c * 16 + d)%N
  | _ => None
  end.

(** One round of the loop of [unquoteBytes]: the bytes written, and the
    input left.  [None] where [unquoteBytes] gives up. *)
Definition unquote_step (s : string) : option (string * string) :=
  match s with
  | "" => None
  | String c r =>
      if bool_decide (c = "\"%char) then
        match r with
        | "" => None
        | String e r1 =>
            if bool_decide (e = dquote) || bool_decide (e = "\"%char)
               || bool_decide (e = "/"%char) || bool_decide (e = "'"%char)
            then Some (String e "", r1)
            else if bool_decide (e = "b"%char) then Some (String (chr 8) "", r1)
            else if bool_decide (e = "f"%char) then Some (String (chr 12) "", r1)
            else if bool_decide (e = "n"%char) then Some (String (chr 10) "", r1)
            else if bool_decide (e = "r"%char) then Some (String (chr 13) "", r1)
            else if bool_decide (e = "t"%char) then Some (String (chr 9) "", r1)
            else if bool_decide (e = "u"%char) then
              rr ← getu4 s;
              let r2 := strings.drop 6 s in
              if utf16.IsSurrogate rr then
                let dec := utf16.DecodeRune rr (getu4 r2) in
                if decide (dec ≠ utf8.RuneError)
                then Some (utf8.EncodeRune dec, strings.drop 6 r2)
                else Some (utf8.EncodeRune utf8.RuneError, r2)
              else Some (utf8.EncodeRune rr, r2)
            else None
        end
      else if bool_decide (c = dquote) || (ord c <? 0x20)%N then None
      else if (ord c <? 0x80)%N then Some (String c "", r)
      else
        let '(rr, size) := utf8.DecodeRune s in
        Some (utf8.EncodeRune rr, strings.drop size s)
  end.

Fixpoint unquote_go (fuel : nat) (s : string) : option string :=
  match fuel, s with
  | _, "" => Some ""
  | 0, _ => None
  | S fuel', _ =>
      '(out, rest) ← unquote_step s;
      t ← unquote_go fuel' rest;
      Some (out +:+ t)
  end.

(** [unquote] on the body of a string literal: escapes are replaced by
    what they stand for and every byte that is not part of well-formed
    UTF-8 by U+FFFD. *)
Definition unquote (s : string) : option string :=
  unquote_go (String.length s) s.

(** *** Decoding *)

Definition expect (lit : string) (v : value) (s : string) :
    result (value * string) :=
  if strings.HasPrefix s lit then Ok (v, strings.drop (String.length lit) s)
  else Err SyntaxError.

Definition string_lit (s : string) : result (string * string) :=
  match scan_string s with
  | Some (raw, rest) =>
      match unquote raw with
      | Some str => Ok (str, rest)
      | None => Err SyntaxError
      end
  | None => Err SyntaxError
  end.

Definition number_lit (s : string) : result (value * string) :=
  match scan_number s with
  | Some (lit, rest) =>
      match ParseFloat lit with
      | Some f => Ok (VFloat f, rest)
      | None => Err UnmarshalTypeError
      end
  | None => Err SyntaxError
  end.

(** A later member replaces an earlier one with the same key. *)
Definition object_of (kvs : list (string * value)) : gmap string value :=
  foldl (λ m kv, <[kv.1 := kv.2]> m) ∅ kvs.

(** Whether [s] starts with a character that [P] holds of. *)
Definition starts (P : ascii → bool) (s : string) : bool :=
  match s with
  | String c _ => P c
  | "" => false
  end.

Definition is_char (c : ascii) : ascii → bool := λ x, bool_decide (x = c).

(** The decoder on one JSON value (the value an [interface{}] receives)
    and what follows it.  [parse_elements] reads the elements of an
    array up to its closing bracket, [parse_members] the members of an
    object up to its closing brace.  Every call consumes input; the fuel
    bounds the number of nested calls. *)
Fixpoint parse_value (fuel : nat) (s : string) : result (value * string) :=
  match fuel with
  | 0 => Err SyntaxError
  | S fuel' =>
      match skip_ws s with
      | "" => Err SyntaxError
      | String c r as s' =>
          if bool_decide (c = "{"%char) then
            if starts (is_char "}") (skip_ws r)
            then Ok (VMap ∅, strings.drop 1 (skip_ws r))
            else '(kvs, r') ← parse_members fuel' r;
                 Ok (VMap (object_of kvs), r')
          else if bool_decide (c = "["%char) then
            if starts (is_char "]") (skip_ws r)
            then Ok (VSlice [], strings.drop 1 (skip_ws r))
            else '(vs, r') ← parse_elements fuel' r; Ok (VSlice vs, r')
          else if bool_decide (c = dquote) then
            '(str, r') ← string_lit r; Ok (VString str, r')
          else if bool_decide (c = "t"%char) then expect "true" (VBool true) s'
          else if bool_decide (c = "f"%char) then expect "false" (VBool false) s'
          else if bool_decide (c = "n"%char) then expect "null" VNil s'
          else if bool_decide (c = "-"%char) || is_digit c then number_lit s'
          else Err SyntaxError
      end
  end
with parse_elements (fuel : nat) (s : string) : result (list value * string) :=
  match fuel with
  | 0 => Err SyntaxError
  | S fuel' =>
      '(v, r) ← parse_value fuel' s;
      match skip_ws r with
      | String p r' =>
          if bool_decide (p = ","%char) then
            '(vs, r'') ← parse_elements fuel' r'; Ok (v :: vs, r'')
          else if bool_decide (p = "]"%char) then Ok ([v], r')
          else Err SyntaxError
      | "" => Err SyntaxError
      end
  end
with parse_members (fuel : nat) (s : string) :
    result (list (string * value) * string) :=
  match fuel with
  | 0 => Err SyntaxError
  | S fuel' =>
      match skip_ws s with
      | String c r =>
          if bool_decide (c = dquote) then
            '(key, r1) ← string_lit r;
            match skip_ws r1 with
            | String p r2 =>
                if bool_decide (p = ":"%char) then
                  '(v, r3) ← parse_value fuel' r2;
                  match skip_ws r3 with
                  | String p' r4 =>
                      if bool_decide (p' = ","%char) then
                        '(kvs, r5) ← parse_members fuel' r4;
                        Ok ((key, v) :: kvs, r5)
                      else if bool_decide (p' = "}"%char) then Ok ([(key, v)], r4)
                      else Err SyntaxError
                  | "" => Err SyntaxError
                  end
                else Err SyntaxError
            | "" => Err SyntaxError
            end
          else Err SyntaxError
      | "" => Err SyntaxError
      end
  end.

(** The whole text must be one value, white space around it allowed. *)
Definition parse (data : string) : result value :=
  '(v, rest) ← parse_value (String.length data) data;
  if decide (skip_ws rest = "") then Ok v else Err SyntaxError.

(** [json.Unmarshal(data, &dst)] for [dst] of type
    [map[string]interface{}].  An object is decoded into [dst] (a new map
    when [dst] is nil), a key it already has being overwritten; the JSON
    [null] sets [dst] to nil and is no error; any other value is an
    [UnmarshalTypeError].  The result is the content of [dst] after the
    call and the error.  What a failed call leaves in [dst], and which of
    the two errors is reported for a text with both defects, is not
    modelled: the provider looks at neither. *)
Definition Unmarshal (data : string) (dst : gomap) : gomap * option error :=
  match parse data with
  | Err e => (dst, Some e)
  | Ok VNil => (None, None)
  | Ok (VMap m) => (Some (m ∪ default ∅ dst), None)
  | Ok _ => (dst, Some UnmarshalTypeError)
  end.

(** *** Encoding *)

(** [htmlSafeSet]: the ASCII characters written as they are. *)
Definition htmlSafe (b : ascii) : bool :=
  (0x20 <=? ord b)%N
  && negb (bool_decide (b = dquote)) && negb (bool_decide (b = "\"%char))
  && negb (bool_decide (b = "<"%char)) && negb (bool_decide (b = ">"%char))
  && negb (bool_decide (b = "&"%char)).

Definition u00 (b : ascii) : string :=
  "\u00" +:+ String (hexdigit (ord b / 16)) (String (hexdigit (ord b mod 16)) "").

(** One round of the loop of the encoder's [string]: what is written for
    the first character of [s], and the rest of [s]. *)
Definition quote_step (s : string) : string * string :=
  match s with
  | "" => ("", "")
  | String b r =>
      if (ord b <? 0x80)%N then
        if htmlSafe b then (String b "", r)
        else if bool_decide (b = "\"%char) || bool_decide (b = dquote)
        then (String "\" (String b ""), r)
        else if bool_decide (b = "010"%char) then ("\n", r)
        else if bool_decide (b = "013"%char) then ("\r", r)
        else if bool_decide (b = "009"%char) then ("\t", r)
        else (u00 b, r)
      else
        let '(c, size) := utf8.DecodeRune s in
        if decide (c = utf8.RuneError ∧ size = 1) then ("\ufffd", r)
        else if decide (c = 0x2028%N ∨ c = 0x2029%N)
        then ("\u202" +:+ String (hexdigit (c mod 16)) "", strings.drop size s)
        else (strings.take size s, strings.drop size s)
  end.

Fixpoint quote_go (fuel : nat) (s : string) : string :=
  match fuel, s with
  | _, "" => ""
  | 0, _ => ""
  | S fuel', _ => let '(out, rest) := quote_step s in out +:+ quote_go fuel' rest
  end.

(** The body of the string literal the encoder writes for [s]. *)
Definition quote_body (s : string) : string := quote_go (String.length s) s.

Definition quote (s : string) : string :=
  String dquote (quote_body s +:+ String dquote "").

(** The members of an object are written by increasing key. *)
Definition key_le (a b : string * string) : Prop := String.le a.1 b.1.

Definition sort_keys (l : list (string * string)) : list (string * string) :=
  merge_sort key_le l.

Definition member (kv : string * string) : string :=
  quote kv.1 +:+ ":" +:+ kv.2.

(** The encoder on an [interface{}] value. *)
Fixpoint encode (v : value) : string :=
  match v with
  | VNil => "null"
  | VBool b => if b then "true" else "false"
  | VFloat f => FormatFloat f
  | VString s => quote s
  | VSlice l => "[" +:+ strings.Join (encode <$> l) "," +:+ "]"
  | VMap m =>
      "{" +:+ strings.Join (member <$> sort_keys (map_to_list (encode <$> m))) ","
      +:+ "}"
  end.

(** [json.Marshal(m)] for [m] of type [map[string]interface{}]: [null]
    for the nil map.  With the values a decoder produces, the encoder has
    nothing to refuse. *)
Definition Marshal (m : gomap) : string * option error :=
  match m with
  | None => ("null", None)
  | Some m => (encode (VMap m), None)
  end.

End json.
End json.

(** A [Float64] in the manner of [json.Number], to run the model on
    concrete texts: a number is the literal that denotes it, every literal
    is in range, and the encoder writes the literal back. *)
Definition literal_Float64 : Float64 := {|
  float64 := string;
  ParseFloat s := Some s;
  FormatFloat f := f
|}.

(** JSON texts are written here with ['] for the double quote; [js] puts
    the double quotes back. *)
Definition js (s : string) : string :=
  String.string_of_list_ascii
    ((λ c, if bool_decide (c = "'"%char) then dquote else c)
       <$> String.list_ascii_of_string s).

(** ** The host framework: [schema.ResourceData]

    The identity of the resource and its attributes, which the schema
    types: the string attributes and the map attributes. *)

Section provider.
Context `{Float64}.

Record ResourceData : Type := mkResourceData {
  rdId : string;
  rdStrings : gmap string string;
  rdMaps : gmap string (gmap string value)
}.

(** [d.Id()] and [d.SetId(v)]. *)
Definition Id (d : ResourceData) : string := rdId d.
Definition SetId (v : string) (d : ResourceData) : ResourceData :=
  mkResourceData v (rdStrings d) (rdMaps d).

(** [d.Set(key, v)] on a string attribute. *)
Definition Set_ (key v : string) (d : ResourceData) : ResourceData :=
  mkResourceData (rdId d) (<[key := v]> (rdStrings d)) (rdMaps d).

(** [d.GetOk(key)]: the attribute, provided it is set to something other
    than the zero value of its type. *)
Definition GetOkString (d : ResourceData) (key : string) : option string :=
  match rdStrings d !! key with
  | Some s => if decide (s = "") then None else Some s
  | None => None
  end.

Definition GetOkMap (d : ResourceData) (key : string) :
    option (gmap string value) :=
  match rdMaps d !! key with
  | Some m => if decide (size m = 0) then None else Some m
  | None => None
  end.

(** Modelled from the spec: the helper [readStringFromResource] is not
    among the sources.  It reads an input that is "possibly
    empty/absent" (§4.3): the attribute, the empty string when it is
    absent. *)
Definition readStringFromResource (d : ResourceData) (key : string) : string :=
  default "" (GetOkString d key).

(** Modelled from the spec: the helper [readMapFromResource] is not among
    the sources.  It reads the mapping input, "possibly empty/absent"
    (§4.3), which the encoders then test against nil: an empty or absent
    mapping is the nil map. *)
Definition readMapFromResource (d : ResourceData) (key : string) : gomap :=
  GetOkMap d key.

(** Modelled from the spec: the helper [contains] is not among the
    sources.  It tells whether a key belongs to the registry of computed
    fields, which is a list of names (§2, §4.2). *)
Definition contains (slice : list string) (item : string) : bool :=
  bool_decide (item ∈ slice).

(** ** The remote client: [gokong] *)

Record PluginRequest : Type := mkPluginRequest {
  reqName : string;
  reqApiId : string;
  reqConsumerId : string;
  reqServiceId : string;
  reqRouteId : string;
  reqConfig : gomap
}.

Record Plugin : Type := mkPlugin {
  plugId : string;
  plugName : string;
  plugApiId : string;
  plugConsumerId : string;
  plugServiceId : string;
  plugRouteId : string;
  plugConfig : gomap
}.

Record ConsumerPluginConfig : Type := mkConsumerPluginConfig {
  cpcId : string;
  cpcBody : string
}.

(** What the remote answers to each call the provider makes here; a nil
    pointer with a nil error is [Ok None]. *)
Record KongAdminClient : Type := mkKongAdminClient {
  GetById : string → result (option Plugin);
  CreatePluginConfig :
    string → string → string → result (option ConsumerPluginConfig);
  GetPluginConfig :
    string → string → string → result (option ConsumerPluginConfig)
}.

(** The remote calls made, for the record. *)
Inductive call : Type :=
  | CallGetById (id : string)
  | CallCreatePluginConfig (consumerId pluginName config : string)
  | CallGetPluginConfig (consumerId pluginName id : string).

(** ** The order of a [range] over a map

    Go leaves it unspecified: [range] is whatever order the run time
    picks for the entries of the map. *)
Variable range : gmap string value → list (string * value).

Definition range_gomap (m : gomap) : list (string * value) :=
  match m with
  | Some m => range m
  | None => []
  end.

(** ** ConfigNormalizer *)

Definition validateDataJSON (configI : string) (k : string) :
    list string * list error :=
  let dataJSON := configI in
  let dataMap : gomap := Some ∅ in
  let '(dataMap, err) := json.Unmarshal dataJSON dataMap in
  match err with
  | Some err => ([], [err])
  | None => ([], [])
  end.

Definition normalizeDataJSON (configI : string) : string :=
  let dataJSON := configI in
  let dataMap : gomap := Some ∅ in
  let '(dataMap, err) := json.Unmarshal dataJSON dataMap in
  match err with
  | Some err => "" (* and the error is logged *)
  | None =>
      let '(ret, err) := json.Marshal dataMap in
      match err with
      | Some err => dataJSON (* and the error is logged *)
      | None => ret
      end
  end.

(** ** DriftFilter *)

(** The loop that copies the entries whose key is not a computed
    property. *)
Definition strip_loop (computedPluginProperties : list string)
    (entries : list (string * value)) : gmap string value :=
  foldl (λ marshalledData kv,
           if negb (contains computedPluginProperties kv.1)
           then <[kv.1 := kv.2]> marshalledData
           else marshalledData)
        ∅ entries.

Definition pluginConfigJsonToString (computedPluginProperties : list string)
    (data : gomap) : string :=
  let marshalledData := strip_loop computedPluginProperties (range_gomap data) in
  let '(rawJson, _) := json.Marshal (Some marshalledData) in
  rawJson.

Definition consumerPluginConfigJsonToString
    (computedPluginProperties : list string) (body : string) : result string :=
  let data : gomap := Some ∅ in
  let '(data, err) := json.Unmarshal body data in
  match err with
  | Some err => Err err
  | None =>
      let marshalledData :=
        strip_loop computedPluginProperties (range_gomap data) in
      let '(rawJson, _) := json.Marshal (Some marshalledData) in
      Ok rawJson
  end.

(** ** ConfigEncoder, primary variant *)

Definition createKongPluginRequestFromResourceData (d : ResourceData) :
    PluginRequest * option error :=
  let pluginRequest :=
    mkPluginRequest
      (readStringFromResource d "name")
      (readStringFromResource d "api_id")
      (readStringFromResource d "consumer_id")
      (readStringFromResource d "service_id")
      (readStringFromResource d "route_id")
      (readMapFromResource d "config") in
  match reqConfig pluginRequest with
  | None =>
      match GetOkString d "config_json" with
      | Some data =>
          let '(configJson, err) := json.Unmarshal data None in
          match err with
          | Some err =>
              (pluginRequest,
               Some (Errorf "failed to unmarshal config_json, err: " (Some err)))
          | None =>
              (mkPluginRequest (reqName pluginRequest) (reqApiId pluginRequest)
                 (reqConsumerId pluginRequest) (reqServiceId pluginRequest)
                 (reqRouteId pluginRequest) configJson,
               None)
          end
      | None => (pluginRequest, None)
      end
  | Some _ => (pluginRequest, None)
  end.

(** ** ConfigEncoder, scoped variant *)

(** The error the spec calls [ConflictingConfig]. *)
Definition ConflictingConfig : error :=
  Errorf "Cannot declare both config and config_json" None.

(** The loop over the entries of the map, which appends to the buffer;
    the assertion [value.(string)] panics on anything but a string. *)
Fixpoint write_pairs (mapSize position : nat) (entries : list (string * value))
    (buffer : string) : outcome string :=
  match entries with
  | [] => Returns buffer
  | (key, val) :: entries' =>
      match val with
      | VString v =>
          let buffer := buffer +:+ key in
          let buffer := buffer +:+ "=" in
          let buffer := buffer +:+ v in
          let buffer :=
            if decide (1 < mapSize ∧ position ≠ mapSize)
            then buffer +:+ "&" else buffer in
          write_pairs mapSize (position + 1) entries' buffer
      | _ => Panics
      end
  end.

Definition generatePluginConfig (configMap : gomap) (configJSON : string) :
    outcome (result string) :=
  match configMap with
  | Some m =>
      if decide (configJSON ≠ "") then Returns (Err ConflictingConfig)
      else
        match write_pairs (size m) 1 (range m) "" with
        | Returns buffer => Returns (Ok buffer)
        | Panics => Panics
        end
  | None => Returns (Ok configJSON)
  end.

(** ** The operations

    An operation works on the resource data and makes remote calls, of
    which a record is kept. *)

Record world : Type := mkWorld {
  data : ResourceData;
  calls : list call
}.

Definition called (c : call) (w : world) : world :=
  mkWorld (data w) (calls w ++ [c]).

Definition update (f : ResourceData → ResourceData) (w : world) : world :=
  mkWorld (f (data w)) (calls w).

Definition resourceKongPluginRead (computedPluginProperties : list string)
    (meta : KongAdminClient) (w : world) : option error * world :=
  let w := called (CallGetById (Id (data w))) w in
  match GetById meta (Id (data w)) with
  | Err err => (Some (Errorf "could not find kong plugin: " (Some err)), w)
  | Ok None => (None, update (SetId "") w)
  | Ok (Some plugin) =>
      let w := update (Set_ "name" (plugName plugin)) w in
      let w := update (Set_ "api_id" (plugApiId plugin)) w in
      let w := update (Set_ "service_id" (plugServiceId plugin)) w in
      let w := update (Set_ "route_id" (plugRouteId plugin)) w in
      let w := update (Set_ "consumer_id" (plugConsumerId plugin)) w in
      let upstreamJson :=
        pluginConfigJsonToString computedPluginProperties (plugConfig plugin) in
      (None, update (Set_ "config_json" upstreamJson) w)
  end.

Definition resourceKongConsumerPluginConfigRead
    (computedPluginProperties : list string)
    (meta : KongAdminClient) (w : world) : option error * world :=
  match splitIdIntoFields (Id (data w)) with
  | Err err => (Some err, w)
  | Ok idFields =>
      let w :=
        called (CallGetPluginConfig (consumerId idFields) (pluginName idFields)
                  (id idFields)) w in
      match GetPluginConfig meta (consumerId idFields) (pluginName idFields)
              (id idFields) with
      | Err err =>
          (Some (Errorf ("could not find kong consumer plugin config with id: "
                         +:+ Id (data w) +:+ " error: ") (Some err)), w)
      | Ok None =>
          (Some (Errorf "could not configure plugin for kong consumer" None), w)
      | Ok (Some consumerPluginConfig) =>
          let w := update (Set_ "consumer_id" (consumerId idFields)) w in
          let w := update (Set_ "plugin_name" (pluginName idFields)) w in
          match consumerPluginConfigJsonToString computedPluginProperties
                  (cpcBody consumerPluginConfig) with
          | Err err =>
              (Some (Errorf ("could not read in consumer plugin config body: "
                             +:+ Id (data w) +:+ " error: ") (Some err)), w)
          | Ok upstreamJson =>
              (None, update (Set_ "config_json" upstreamJson) w)
          end
      end
  end.

Definition resourceKongConsumerPluginConfigCreate
    (computedPluginProperties : list string)
    (meta : KongAdminClient) (w : world) : outcome (option error * world) :=
  let d := data w in
  let consumerId := readStringFromResource d "consumer_id" in
  let pluginName := readStringFromResource d "plugin_name" in
  match generatePluginConfig (readMapFromResource d "config")
          (readStringFromResource d "config_json") with
  | Panics => Panics
  | Returns (Err err) =>
      Returns (Some (Errorf "error configuring plugin: " (Some err)), w)
  | Returns (Ok config) =>
      let w := called (CallCreatePluginConfig consumerId pluginName config) w in
      match CreatePluginConfig meta consumerId pluginName config with
      | Err err =>
          Returns (Some (Errorf "failed to create kong consumer plugin config, error: "
                           (Some err)), w)
      | Ok consumerPluginConfig =>
          let w :=
            match consumerPluginConfig with
            | None => update (SetId "") w
            | Some c => update (SetId (buildId consumerId pluginName (cpcId c))) w
            end in
          Returns (resourceKongConsumerPluginConfigRead
                     computedPluginProperties meta w)
      end
  end.

End provider.

(** ** The operations that change the remote

    The create, update and delete of the primary attachment and the delete
    of the scoped one.  What the remote answers to the calls that change it
    is a second record; these calls are recorded in a list of their
    own. *)

Section writes.
Context `{Float64}.
Variable range : gmap string value → list (string * value).

Record KongAdminWrites : Type := mkKongAdminWrites {
  Create : PluginRequest → result (option Plugin);
  UpdateById : string → PluginRequest → result (option Plugin);
  DeleteById : string → option error;
  DeletePluginConfig : string → string → string → option error
}.

Inductive write_call : Type :=
  | CallCreate (pluginRequest : PluginRequest)
  | CallUpdateById (id : string) (pluginRequest : PluginRequest)
  | CallDeleteById (id : string)
  | CallDeletePluginConfig (consumerId pluginName id : string).

(** How [fmt] renders a plugin request with [%v]. *)
Variable render : PluginRequest → string.

Definition resourceKongPluginCreate (computedPluginProperties : list string)
    (meta : KongAdminClient) (metaw : KongAdminWrites)
    (w : world) (writes : list write_call) :
    outcome (option error * world * list write_call) :=
  let '(pluginRequest, err) := createKongPluginRequestFromResourceData (data w) in
  match err with
  | Some err => Returns (Some err, w, writes)
  | None =>
      let writes := writes ++ [CallCreate pluginRequest] in
      match Create metaw pluginRequest with
      | Err err =>
          Returns (Some (Errorf ("failed to create kong plugin: "
                                 +:+ render pluginRequest +:+ " error: ")
                           (Some err)), w, writes)
      | Ok None => Panics (* plugin.Id on a nil pointer *)
      | Ok (Some plugin) =>
          let w := update (SetId (plugId plugin)) w in
          let '(err, w) :=
            resourceKongPluginRead range computedPluginProperties meta w in
          Returns (err, w, writes)
      end
  end.

(** [d.Partial(false)] concerns the way the framework saves the state; it
    changes neither the identity nor an attribute. *)
Definition resourceKongPluginUpdate (computedPluginProperties : list string)
    (meta : KongAdminClient) (metaw : KongAdminWrites)
    (w : world) (writes : list write_call) :
    option error * world * list write_call :=
  let '(pluginRequest, err) := createKongPluginRequestFromResourceData (data w) in
  match err with
  | Some err => (Some err, w, writes)
  | None =>
      let writes := writes ++ [CallUpdateById (Id (data w)) pluginRequest] in
      match UpdateById metaw (Id (data w)) pluginRequest with
      | Err err =>
          (Some (Errorf "error updating kong plugin: " (Some err)), w, writes)
      | Ok _ =>
          let '(err, w) :=
            resourceKongPluginRead range computedPluginProperties meta w in
          (err, w, writes)
      end
  end.

Definition resourceKongPluginDelete (metaw : KongAdminWrites)
    (w : world) (writes : list write_call) :
    option error * world * list write_call :=
  let writes := writes ++ [CallDeleteById (Id (data w))] in
  match DeleteById metaw (Id (data w)) with
  | Some err => (Some (Errorf "could not delete kong plugin: " (Some err)), w, writes)
  | None => (None, w, writes)
  end.

Definition resourceKongConsumerPluginConfigDelete (metaw : KongAdminWrites)
    (w : world) (writes : list write_call) :
    option error * world * list write_call :=
  match splitIdIntoFields (Id (data w)) with
  | Err err => (Some err, w, writes)
  | Ok idFields =>
      let writes :=
        writes ++ [CallDeletePluginConfig (consumerId idFields)
                     (pluginName idFields) (id idFields)] in
      match DeletePluginConfig metaw (consumerId idFields) (pluginName idFields)
              (id idFields) with
      | Some err =>
          (Some (Errorf "could not delete kong consumer plugin config: "
                   (Some err)), w, writes)
      | None => (None, w, writes)
      end
  end.

(** The [DiffSuppressFunc] of [config_json], in both schemas. *)
Definition DiffSuppressFunc (k old new : string) (d : ResourceData) : bool :=
  bool_decide (new = "").

End writes.

(** * Properties *)

(** *** Properties of the identifier codec *)

Section identifier_codec.

Lemma Split_nonempty s sep : strings.Split s sep ≠ [].
Proof. induction s as [|x s IH]; simpl; [done|]. case_decide; [done|]. by destruct (strings.Split s sep). Qed.

Lemma Split_no_sep s sep :
  strings.Contains s sep = false → strings.Split s sep = [s].
Proof.
  induction s as [|x s IH]; simpl; [done|].
  case_decide; [done|]. intros Hs. by rewrite IH.
Qed.

Lemma Split_app_sep s r sep :
  strings.Contains s sep = false →
  strings.Split (s +:+ String sep r) sep = s :: strings.Split r sep.
Proof.
  induction s as [|x s IH]; rewrite ?strings.app_cons; simpl.
  - intros _. by rewrite decide_True.
  - case_decide; [done|]. intros Hs. by rewrite IH.
Qed.

Lemma Split_buildId a b c :
  strings.Contains a pipe = false →
  strings.Contains b pipe = false →
  strings.Contains c pipe = false →
  strings.Split (buildId a b c) pipe = [a; b; c].
Proof.
  intros Ha Hb Hc. unfold buildId.
  assert (∀ r, "|" +:+ r = String pipe r) as Hsep by done.
  rewrite !Hsep.
  rewrite (Split_app_sep a) by done.
  rewrite (Split_app_sep b) by done.
  by rewrite Split_no_sep.
Qed.

End identifier_codec.

(** C2: for strings [a], [b], [c] without the ['|'] byte, parsing the
    identifier built from them succeeds and gives back exactly
    [(a, b, c)]. *)
Theorem splitIdIntoFields_buildId (a b c : string) :
  strings.Contains a pipe = false →
  strings.Contains b pipe = false →
  strings.Contains c pipe = false →
  splitIdIntoFields (buildId a b c) = Ok (mkIdFields a b c).
Proof.
  intros Ha Hb Hc. unfold splitIdIntoFields.
  by rewrite Split_buildId.
Qed.

Lemma splitIdIntoFields_buildId_witness :
  splitIdIntoFields (buildId "c1" "rate-limiting" "abc")
  = Ok (mkIdFields "c1" "rate-limiting" "abc").
Proof. apply splitIdIntoFields_buildId; reflexivity. Defined.

(** C3: [splitIdIntoFields] succeeds exactly when splitting on ['|'] yields
    three parts, and then returns those parts as they are, empty or not;
    in every other case it fails with [MalformedIdentifier]. *)
Theorem splitIdIntoFields_spec (s : string) :
  (length (strings.Split s pipe) = 3 ↔ ∃ f, splitIdIntoFields s = Ok f)
  ∧ (∀ f0 f1 f2, strings.Split s pipe = [f0; f1; f2] →
       splitIdIntoFields s = Ok (mkIdFields f0 f1 f2))
  ∧ (length (strings.Split s pipe) ≠ 3 →
       splitIdIntoFields s = Err (MalformedIdentifier s)).
Proof.
  unfold splitIdIntoFields. split_and!.
  - split.
    + intros Hlen. rewrite decide_False by (by intros ?). by eexists.
    + intros [f Hf]. case_decide as Hlen; [done|].
      destruct (decide (length (strings.Split s pipe) = 3)); done.
  - intros f0 f1 f2 ->. done.
  - intros Hlen. by rewrite decide_True.
Qed.

Example splitIdIntoFields_empty_parts :
  splitIdIntoFields "||" = Ok (mkIdFields "" "" "").
Proof. reflexivity. Qed.

Example splitIdIntoFields_bad :
  splitIdIntoFields "bad" = Err (MalformedIdentifier "bad").
Proof. reflexivity. Qed.

(** ** The scoped encoder *)

Section scoped_encoder.
Context `{Float64}.
Variable range : gmap string value → list (string * value).

(** The text of one entry, for an entry whose value is a string. *)
Definition segment (kv : string * value) : string :=
  match kv.2 with
  | VString v => kv.1 +:+ "=" +:+ v
  | _ => ""
  end.

Definition string_valued (m : gmap string value) : Prop :=
  ∀ k v, m !! k = Some v → ∃ s, v = VString s.

Lemma Join_cons x l sep :
  l ≠ [] → strings.Join (x :: l) sep = x +:+ sep +:+ strings.Join l sep.
Proof. by destruct l. Qed.

Lemma write_pairs_Join mapSize entries : ∀ position buffer,
  (1 ≤ position)%nat →
  position + length entries = S mapSize →
  Forall (λ kv, ∃ s, kv.2 = VString s) entries →
  write_pairs mapSize position entries buffer
  = Returns (buffer +:+ strings.Join (segment <$> entries) "&").
Proof.
  induction entries as [|[key val] entries IH]; intros position buffer Hone Hpos Hstr.
  - simpl. by rewrite strings.app_nil_r.
  - apply Forall_cons in Hstr as [[v Hv] Hstr]. simpl in Hv. subst val.
    simpl in Hpos. cbn [write_pairs].
    rewrite IH; [|lia|lia|done].
    destruct entries as [|kv' entries].
    + simpl in Hpos. case_decide; [lia|].
      change (strings.Join (segment <$> []) "&") with "".
      change (strings.Join (segment <$> [(key, VString v)]) "&")
        with (key +:+ "=" +:+ v).
      by rewrite !strings.app_nil_r, !strings.app_assoc.
    + simpl in Hpos. case_decide; [|lia].
      rewrite !fmap_cons.
      rewrite (Join_cons (segment (key, VString v)) (segment kv' :: _)) by done.
      change (segment (key, VString v)) with (key +:+ "=" +:+ v).
      by rewrite !strings.app_assoc.
Qed.

Lemma generatePluginConfig_conflict (m : gmap string value) (J : string) :
  J ≠ "" → generatePluginConfig range (Some m) J = Returns (Err ConflictingConfig).
Proof. intros HJ. unfold generatePluginConfig. by rewrite decide_True. Qed.

End scoped_encoder.

(** C1: when the mapping [config] and the blob [config_json] are both
    non-empty, the scoped encoder fails with [ConflictingConfig], and the
    create operation returns that error, wrapped, with the record of remote
    calls and the resource data as they were: [CreatePluginConfig] has not
    been invoked. *)
Theorem create_conflicting_config `{Float64}
    (range : gmap string value → list (string * value))
    (computedPluginProperties : list string) (meta : KongAdminClient)
    (w : world) (M : gmap string value) (J : string) :
  rdMaps (data w) !! "config" = Some M → M ≠ ∅ →
  rdStrings (data w) !! "config_json" = Some J → J ≠ "" →
  generatePluginConfig range (readMapFromResource (data w) "config")
    (readStringFromResource (data w) "config_json")
    = Returns (Err ConflictingConfig)
  ∧ ∃ w', resourceKongConsumerPluginConfigCreate range computedPluginProperties meta w
          = Returns (Some (Errorf "error configuring plugin: "
                             (Some ConflictingConfig)), w')
        ∧ calls w' = calls w ∧ data w' = data w.
Proof.
  intros HM Hne HJ HJne.
  assert (readMapFromResource (data w) "config" = Some M) as HrM.
  { unfold readMapFromResource, GetOkMap. rewrite HM.
    rewrite decide_False; [done|]. by intros ?%map_size_empty_inv. }
  assert (readStringFromResource (data w) "config_json" = J) as HrJ.
  { unfold readStringFromResource, GetOkString. rewrite HJ.
    by rewrite decide_False. }
  unfold resourceKongConsumerPluginConfigCreate.
  rewrite HrM, HrJ, generatePluginConfig_conflict by done.
  split; [done|]. by exists w.
Qed.

(** C7: with the blob empty, the scoped encoder writes one [key=value]
    segment for each entry of a mapping of strings, in the order the
    [range] visits them, with ["&"] between consecutive segments and the
    values as they are; with the mapping absent it returns the blob as it
    is. *)
Theorem generatePluginConfig_encoding `{Float64}
    (range : gmap string value → list (string * value))
    (M : gmap string value) (J : string) :
  range M ≡ₚ map_to_list M →
  string_valued M →
  generatePluginConfig range (Some M) ""
    = Returns (Ok (strings.Join (segment <$> range M) "&"))
  ∧ generatePluginConfig range None J = Returns (Ok J).
Proof.
  intros Hperm Hstr. split; [|done].
  unfold generatePluginConfig. rewrite decide_False by (by intros []).
  rewrite write_pairs_Join.
  - done.
  - done.
  - rewrite Hperm, length_map_to_list. lia.
  - apply Forall_forall. intros [k v] Hkv.
    rewrite Hperm in Hkv. apply elem_of_map_to_list in Hkv.
    by apply (Hstr k).
Qed.

(** ** Inputs for the examples *)

#[local] Existing Instance literal_Float64 | 100.

Section examples.

(** A remote that has nothing. *)
Definition empty_remote : KongAdminClient :=
  mkKongAdminClient (λ _, Ok None) (λ _ _ _, Ok None) (λ _ _ _, Ok None).

Definition minute10 : gmap string value := {[ "minute" := VString "10" ]}.

(** A scoped attachment declared with both input forms. *)
Definition both_forms : world :=
  mkWorld
    (mkResourceData ""
       {[ "consumer_id" := "c1"; "plugin_name" := "rate-limiting";
          "config_json" := js "{'x':1}" ]}
       {[ "config" := minute10 ]})
    [].

End examples.

Lemma create_conflicting_config_witness :
  generatePluginConfig map_to_list
    (readMapFromResource (data both_forms) "config")
    (readStringFromResource (data both_forms) "config_json")
    = Returns (Err ConflictingConfig)
  ∧ ∃ w', resourceKongConsumerPluginConfigCreate map_to_list ["id"] empty_remote
            both_forms
          = Returns (Some (Errorf "error configuring plugin: "
                             (Some ConflictingConfig)), w')
        ∧ calls w' = calls both_forms ∧ data w' = data both_forms.
Proof.
  apply (create_conflicting_config map_to_list ["id"] empty_remote both_forms
           minute10 (js "{'x':1}")).
  - reflexivity.
  - apply insert_non_empty.
  - reflexivity.
  - discriminate.
Defined.

Lemma generatePluginConfig_encoding_witness :
  generatePluginConfig map_to_list (Some minute10) ""
    = Returns (Ok (strings.Join (segment <$> map_to_list minute10) "&"))
  ∧ generatePluginConfig map_to_list None (js "{'minute':10}")
    = Returns (Ok (js "{'minute':10}")).
Proof.
  apply (generatePluginConfig_encoding map_to_list minute10).
  - reflexivity.
  - intros k v Hkv. unfold minute10 in Hkv.
    apply lookup_singleton_Some in Hkv as [_ <-]. by eexists.
Defined.

(** Scenario 4 of the spec. *)
Example generatePluginConfig_minute :
  generatePluginConfig map_to_list (Some minute10) ""
  = Returns (Ok "minute=10").
Proof. vm_compute. reflexivity. Qed.

(** ** Reading an attachment that is gone *)

(** C9: when the remote has no object, the read of a primary attachment
    returns no error and clears the identity, and the read of a scoped
    attachment returns an error and leaves the resource data, identity
    included, as it was. *)
Theorem read_missing_asymmetry `{Float64}
    (range : gmap string value → list (string * value))
    (computedPluginProperties : list string) (meta : KongAdminClient)
    (w : world) :
  (GetById meta (Id (data w)) = Ok None →
     ∃ w', resourceKongPluginRead range computedPluginProperties meta w = (None, w')
           ∧ Id (data w') = "")
  ∧ (∀ f, splitIdIntoFields (Id (data w)) = Ok f →
       GetPluginConfig meta (consumerId f) (pluginName f) (id f) = Ok None →
       ∃ w', resourceKongConsumerPluginConfigRead range computedPluginProperties meta w
             = (Some (Errorf "could not configure plugin for kong consumer" None), w')
             ∧ data w' = data w).
Proof.
  split.
  - intros Hget. unfold resourceKongPluginRead, called. cbn [data].
    rewrite Hget. by eexists.
  - intros f Hf Hget. unfold resourceKongConsumerPluginConfigRead.
    rewrite Hf, Hget. by eexists.
Qed.

Definition gone : world :=
  mkWorld (mkResourceData "c1|rate-limiting|abc" ∅ ∅) [].

Lemma read_missing_asymmetry_witness :
  (∃ w', resourceKongPluginRead map_to_list ["id"] empty_remote gone = (None, w')
         ∧ Id (data w') = "")
  ∧ (∃ w', resourceKongConsumerPluginConfigRead map_to_list ["id"] empty_remote gone
           = (Some (Errorf "could not configure plugin for kong consumer" None), w')
           ∧ data w' = data gone).
Proof.
  destruct (read_missing_asymmetry map_to_list ["id"] empty_remote gone)
    as [Hprimary Hscoped].
  split.
  - apply Hprimary. reflexivity.
  - apply (Hscoped (mkIdFields "c1" "rate-limiting" "abc")); reflexivity.
Defined.

(** ** The primary encoder *)

(** C6: a non-empty mapping [config] is the outbound configuration
    whatever [config_json] holds; with the mapping empty or absent, the
    outbound configuration is what [json.Unmarshal] makes of a non-empty
    [config_json], an error of [json.Unmarshal] being returned; with
    [config_json] empty or absent too, the outbound configuration is the
    nil map. *)
Theorem createKongPluginRequest_config `{Float64} (d : ResourceData) :
  (∀ M, rdMaps d !! "config" = Some M → M ≠ ∅ →
     ∃ req, createKongPluginRequestFromResourceData d = (req, None)
            ∧ reqConfig req = Some M)
  ∧ (∀ J, GetOkMap d "config" = None →
       rdStrings d !! "config_json" = Some J → J ≠ "" →
       (∀ cfg, json.Unmarshal J None = (cfg, None) →
          ∃ req, createKongPluginRequestFromResourceData d = (req, None)
                 ∧ reqConfig req = cfg)
       ∧ (∀ cfg err, json.Unmarshal J None = (cfg, Some err) →
            ∃ req, createKongPluginRequestFromResourceData d
                   = (req, Some (Errorf "failed to unmarshal config_json, err: "
                                   (Some err)))))
  ∧ (GetOkMap d "config" = None → GetOkString d "config_json" = None →
       ∃ req, createKongPluginRequestFromResourceData d = (req, None)
              ∧ reqConfig req = None).
Proof.
  unfold createKongPluginRequestFromResourceData, readMapFromResource.
  cbn [reqConfig]. split_and!.
  - intros M HM Hne. unfold GetOkMap. rewrite HM.
    rewrite decide_False by (by intros ?%map_size_empty_inv). by eexists.
  - intros J -> HJ Hne.
    assert (GetOkString d "config_json" = Some J) as ->.
    { unfold GetOkString. rewrite HJ. by rewrite decide_False. }
    split.
    + intros cfg ->. by eexists.
    + intros cfg err ->. by eexists.
  - intros -> ->. by eexists.
Qed.

Definition primary_both : ResourceData :=
  mkResourceData "" {[ "name" := "rate-limiting"; "config_json" := js "{'x':true}" ]}
    {[ "config" := minute10 ]}.

Lemma createKongPluginRequest_config_witness :
  ∃ req, createKongPluginRequestFromResourceData primary_both = (req, None)
         ∧ reqConfig req = Some minute10.
Proof.
  destruct (createKongPluginRequest_config primary_both) as [Hmap _].
  apply Hmap.
  - reflexivity.
  - apply insert_non_empty.
Defined.

(** The blob is parsed when the mapping is absent. *)
Example createKongPluginRequest_from_blob :
  createKongPluginRequestFromResourceData
    (mkResourceData "" {[ "name" := "acl"; "config_json" := js "{'x':true}" ]} ∅)
  = (mkPluginRequest "acl" "" "" "" "" (Some {[ "x" := VBool true ]}), None).
Proof. vm_compute. reflexivity. Qed.

(** ** The normaliser on texts that are not objects *)

Section normalizer.
Context `{Float64}.
Variable range : gmap string value → list (string * value).

(** What [json.Unmarshal] into a map accepts: an object or [null]. *)
Lemma Unmarshal_accepts (s : string) (dst : gomap) :
  (json.Unmarshal s dst).2 = None
  ↔ json.parse s = Ok VNil ∨ ∃ m, json.parse s = Ok (VMap m).
Proof.
  unfold json.Unmarshal.
  destruct (json.parse s) as [[| | | | |m]|e]; simpl;
    (split; [intros ?|intros [?|[? ?]]]); simplify_eq; eauto.
Qed.

Lemma validateDataJSON_accepts (s k : string) :
  validateDataJSON s k = ([], [])
  ↔ json.parse s = Ok VNil ∨ ∃ m, json.parse s = Ok (VMap m).
Proof.
  rewrite <-(Unmarshal_accepts s (Some ∅)). unfold validateDataJSON.
  destruct (json.Unmarshal s (Some ∅)) as [m [e|]]; simpl; by split.
Qed.

Lemma parse_null : json.parse "null" = Ok VNil.
Proof. reflexivity. Qed.

(** What it refuses: every text that is neither. *)
Lemma Unmarshal_refuses (s : string) (dst : gomap) :
  (json.Unmarshal s dst).2 ≠ None
  ↔ json.parse s ≠ Ok VNil ∧ ∀ m, json.parse s ≠ Ok (VMap m).
Proof.
  rewrite Unmarshal_accepts. split.
  - intros Hno. split; [intros Hnull|intros m Hobj]; apply Hno; eauto.
  - intros [Hnull Hobj] [Hs|[m Hs]]; [by apply Hnull|by apply (Hobj m)].
Qed.

End normalizer.

(** C4: the validator accepts the text [null], which is not an object:
    [json.Unmarshal] takes the JSON [null] for the nil map. *)
Theorem validateDataJSON_null `{Float64} (k : string) :
  json.parse "null" = Ok VNil ∧ validateDataJSON "null" k = ([], []).
Proof.
  split; [apply parse_null|].
  apply validateDataJSON_accepts. left. apply parse_null.
Qed.

(** C10: on a text that [json.Unmarshal] does not decode into a map, the
    normaliser returns the empty string.  By [Unmarshal_refuses] these are
    the texts that are not JSON and the JSON arrays, strings, numbers and
    booleans. *)
Theorem normalizeDataJSON_rejected `{Float64} (s : string) :
  (json.Unmarshal s (Some ∅)).2 ≠ None →
  normalizeDataJSON s = "".
Proof.
  intros Herr. unfold normalizeDataJSON.
  by destruct (json.Unmarshal s (Some ∅)) as [m [e|]].
Qed.

Lemma normalizeDataJSON_rejected_witness : normalizeDataJSON (js "[1]") = "".
Proof. apply normalizeDataJSON_rejected. by vm_compute. Defined.

(** The text [null] is not among them: [json.Unmarshal] takes it for the
    nil map and reports nothing, and the normaliser writes [null] back. *)
Example normalizeDataJSON_null `{Float64} :
  json.Unmarshal "null" (Some ∅) = (None, None)
  ∧ normalizeDataJSON "null" = "null".
Proof. split; reflexivity. Qed.

(** ** The drift filter *)

Section drift_filter.
Context `{Float64}.
Variable range : gmap string value → list (string * value).
Hypothesis range_perm : ∀ m, range m ≡ₚ map_to_list m.

(** The entries of a Go map, none for the nil map. *)
Definition entries_of (R : gomap) : gmap string value := default ∅ R.

(** [F] is [R] without the keys of [E]. *)
Definition stripped (E : list string) (R : gomap) (F : gmap string value) : Prop :=
  ∀ k, F !! k = if bool_decide (k ∈ E) then None else entries_of R !! k.

Lemma strip_loop_acc E l : ∀ (acc : gmap string value) k,
  NoDup l.*1 →
  foldl (λ marshalledData kv,
           if negb (contains E kv.1) then <[kv.1 := kv.2]> marshalledData
           else marshalledData) acc l !! k
  = match (if contains E k then None
           else (list_to_map l : gmap string value) !! k) with
    | Some v => Some v
    | None => acc !! k
    end.
Proof.
  induction l as [|[k0 v0] l IH]; intros acc k Hnd.
  - simpl. rewrite lookup_empty. by destruct (contains E k).
  - apply NoDup_cons in Hnd as [Hk0 Hnd].
    cbn [foldl fst snd]. rewrite IH by done.
    destruct (contains E k) eqn:Hk.
    + destruct (contains E k0) eqn:Hk0'; simpl; [done|].
      rewrite lookup_insert_ne; [done|]. intros ->. congruence.
    + cbn [list_to_map foldr fst snd uncurry].
      destruct (decide (k0 = k)) as [->|Hne].
      * rewrite Hk. simpl.
        rewrite (not_elem_of_list_to_map_1 _ k) by done.
        by rewrite !lookup_insert_eq.
      * rewrite (lookup_insert_ne (list_to_map l)) by done.
        destruct (list_to_map l !! k); [done|].
        destruct (contains E k0); simpl; [done|].
        by rewrite lookup_insert_ne.
Qed.

Lemma strip_loop_stripped E (R : gomap) :
  stripped E R (strip_loop E (range_gomap range R)).
Proof.
  intros k. unfold strip_loop. destruct R as [m|]; simpl.
  - rewrite strip_loop_acc.
    + rewrite (list_to_map_proper _ (map_to_list m)), list_to_map_to_list.
      * unfold contains. rewrite lookup_empty.
        by destruct (bool_decide (k ∈ E)), (m !! k).
      * rewrite range_perm. apply NoDup_fst_map_to_list.
      * apply range_perm.
    + rewrite range_perm. apply NoDup_fst_map_to_list.
  - rewrite !lookup_empty. by destruct (bool_decide (k ∈ E)).
Qed.

End drift_filter.

(** C5: whatever order the [range] visits the entries in, both filters
    return the encoding [json.Marshal] gives of a map that has exactly the
    keys of the remote object that are not computed properties, each with
    the value the remote object gives it; the scoped filter does so for the
    object its body decodes to. *)
Theorem drift_filter_strips `{Float64}
    (range : gmap string value → list (string * value))
    (E : list string) :
  (∀ m, range m ≡ₚ map_to_list m) →
  (∀ R : gomap, ∃ F, stripped E R F
     ∧ pluginConfigJsonToString range E R = (json.Marshal (Some F)).1)
  ∧ (∀ (body : string) (R : gomap),
       json.Unmarshal body (Some ∅) = (R, None) →
       ∃ F, stripped E R F
         ∧ consumerPluginConfigJsonToString range E body
           = Ok (json.Marshal (Some F)).1).
Proof.
  intros Hperm. split.
  - intros R. eexists. split; [by apply (strip_loop_stripped range Hperm E R)|done].
  - intros body R HR. eexists.
    split; [by apply (strip_loop_stripped range Hperm E R)|].
    unfold consumerPluginConfigJsonToString. by rewrite HR.
Qed.

Definition remote_config : gmap string value :=
  {[ "a" := VBool true; "id" := VString "x"; "created_at" := VNil ]}.

Lemma drift_filter_strips_witness :
  (∃ F, stripped ["id"; "created_at"] (Some remote_config) F
     ∧ pluginConfigJsonToString map_to_list ["id"; "created_at"] (Some remote_config)
       = (json.Marshal (Some F)).1)
  ∧ (∃ F, stripped ["id"; "created_at"] (Some remote_config) F
       ∧ consumerPluginConfigJsonToString map_to_list ["id"; "created_at"]
           (js "{'a':true,'id':'x','created_at':null}")
         = Ok (json.Marshal (Some F)).1).
Proof.
  destruct (drift_filter_strips map_to_list ["id"; "created_at"]) as [Hp Hs].
  - reflexivity.
  - split; [apply Hp|]. apply Hs. vm_compute. reflexivity.
Defined.

(** Scenario 2 of the spec. *)
Example pluginConfigJsonToString_scenario :
  pluginConfigJsonToString map_to_list ["id"; "created_at"] (Some remote_config)
  = js "{'a':true}".
Proof. vm_compute. reflexivity. Qed.
(** ** Strings and bytes *)

Section bytes.

Lemma ord_chr (n : N) : (n < 256)%N → ord (chr n) = n.
Proof. apply N_ascii_embedding. Qed.

Lemma chr_ord (c : ascii) : chr (ord c) = c.
Proof. apply ascii_N_embedding. Qed.

Lemma ord_lt (c : ascii) : (ord c < 256)%N.
Proof. apply N_ascii_bounded. Qed.

Lemma ord_inj (c d : ascii) : ord c = ord d → c = d.
Proof. intros Hcd. by rewrite <-(chr_ord c), <-(chr_ord d), Hcd. Qed.

Lemma length_app (s t : string) :
  String.length (s +:+ t) = String.length s + String.length t.
Proof. induction s as [|c s IH]; [done|]. rewrite strings.app_cons. simpl. by rewrite IH. Qed.

Lemma drop_length (n : nat) (s : string) :
  String.length (strings.drop n s) = String.length s - n.
Proof. revert s. induction n as [|n IH]; intros [|c s]; simpl; auto with lia. Qed.

Lemma take_drop (n : nat) (s : string) :
  strings.take n s +:+ strings.drop n s = s.
Proof.
  revert s. induction n as [|n IH]; intros [|c s]; simpl; try done.
  by rewrite strings.app_cons, IH.
Qed.

Lemma drop_app_length (s t : string) :
  strings.drop (String.length s) (s +:+ t) = t.
Proof. induction s as [|c s IH]; [by destruct t|]. by rewrite strings.app_cons. Qed.

End bytes.

(** Turns the tests on bytes into inequalities between their codes. *)
Ltac bytes :=
  unfold utf8.cont, utf8.second, utf8.between, utf16.IsSurrogate,
    utf8.RuneError, utf8.MaxRune in *;
  repeat match goal with
    | H : _ && _ = true |- _ => apply andb_true_iff in H as [? ?]
    | H : _ || _ = false |- _ => apply orb_false_iff in H as [? ?]
    | H : negb _ = true |- _ => apply negb_true_iff in H
    | H : negb _ = false |- _ => apply negb_false_iff in H
    | H : (_ <=? _)%N = true |- _ => apply N.leb_le in H
    | H : (_ <=? _)%N = false |- _ => apply N.leb_gt in H
    | H : (_ <? _)%N = true |- _ => apply N.ltb_lt in H
    | H : (_ <? _)%N = false |- _ => apply N.ltb_ge in H
    | H : (_ =? _)%N = true |- _ => apply N.eqb_eq in H
    | H : (_ =? _)%N = false |- _ => apply N.eqb_neq in H
    | H : bool_decide _ = true |- _ => apply bool_decide_eq_true in H
    | H : bool_decide _ = false |- _ => apply bool_decide_eq_false in H
    end.

(** ** UTF-8 *)

Section utf8_facts.

(** The well-formed sequences of two, three and four bytes. *)
Definition seq2 (b0 b1 : ascii) : Prop :=
  utf8.between 0xC2 0xDF b0 = true ∧ utf8.cont b1 = true.
Definition seq3 (b0 b1 b2 : ascii) : Prop :=
  utf8.between 0xE0 0xEF b0 = true ∧ utf8.second b0 b1 = true
  ∧ utf8.cont b2 = true.
Definition seq4 (b0 b1 b2 b3 : ascii) : Prop :=
  utf8.between 0xF0 0xF4 b0 = true ∧ utf8.second b0 b1 = true
  ∧ utf8.cont b2 = true ∧ utf8.cont b3 = true.

Definition rune2 (b0 b1 : ascii) : N :=
  ((ord b0 - 0xC0) * 64 + (ord b1 - 0x80))%N.
Definition rune3 (b0 b1 b2 : ascii) : N :=
  ((ord b0 - 0xE0) * 4096 + (ord b1 - 0x80) * 64 + (ord b2 - 0x80))%N.
Definition rune4 (b0 b1 b2 b3 : ascii) : N :=
  ((ord b0 - 0xF0) * 262144 + (ord b1 - 0x80) * 4096
   + (ord b2 - 0x80) * 64 + (ord b3 - 0x80))%N.

(** What the head of a non-empty string can be. *)
Inductive head : string → N → nat → Prop :=
  | head_ascii b r :
      (ord b < 0x80)%N → head (String b r) (ord b) 1
  | head_seq2 b0 b1 r :
      seq2 b0 b1 → head (String b0 (String b1 r)) (rune2 b0 b1) 2
  | head_seq3 b0 b1 b2 r :
      seq3 b0 b1 b2 →
      head (String b0 (String b1 (String b2 r))) (rune3 b0 b1 b2) 3
  | head_seq4 b0 b1 b2 b3 r :
      seq4 b0 b1 b2 b3 →
      head (String b0 (String b1 (String b2 (String b3 r))))
        (rune4 b0 b1 b2 b3) 4.

(** An ill-formed head: [DecodeRune] answers [(RuneError, 1)]. *)
Definition ill_formed (s : string) : Prop :=
  ∃ b r, s = String b r ∧ (0x80 <= ord b)%N
         ∧ utf8.DecodeRune s = (utf8.RuneError, 1).

Lemma DecodeRune_head (s : string) :
  s ≠ "" →
  (∃ r n, head s r n ∧ utf8.DecodeRune s = (r, n)) ∨ ill_formed s.
Proof.
  destruct s as [|b0 s]; [done|]. intros _.
  unfold ill_formed, utf8.DecodeRune.
  destruct (ord b0 <? 0x80)%N eqn:H0.
  { left. do 2 eexists. split; [|done]. constructor. by bytes. }
  assert (0x80 <= ord b0)%N by by bytes.
  destruct (utf8.between 0xC2 0xDF b0) eqn:H2.
  { destruct s as [|b1 s]; [right; by do 2 eexists|].
    destruct (utf8.cont b1) eqn:H21; [|right; by do 2 eexists].
    left. do 2 eexists. split; [|done]. by constructor. }
  destruct (utf8.between 0xE0 0xEF b0) eqn:H3.
  { destruct s as [|b1 [|b2 s]]; [right; by do 2 eexists..|].
    destruct (utf8.second b0 b1 && utf8.cont b2) eqn:H31;
      [|right; by do 2 eexists].
    apply andb_true_iff in H31 as [??].
    left. do 2 eexists. split; [|done]. by constructor. }
  destruct (utf8.between 0xF0 0xF4 b0) eqn:H4.
  { destruct s as [|b1 [|b2 [|b3 s]]]; [right; by do 2 eexists..|].
    destruct (utf8.second b0 b1 && utf8.cont b2 && utf8.cont b3) eqn:H41;
      [|right; by do 2 eexists].
    apply andb_true_iff in H41 as [[??]%andb_true_iff ?].
    left. do 2 eexists. split; [|done]. by constructor. }
  right. by do 2 eexists.
Qed.

(** A head is decoded as such, whatever follows it. *)
Lemma head_DecodeRune s r n : head s r n → utf8.DecodeRune s = (r, n).
Proof.
  destruct 1 as [b s H0|b0 b1 s [H0 H1]|b0 b1 b2 s (H0&H1&H2)
                |b0 b1 b2 b3 s (H0&H1&H2&H3)]; unfold utf8.DecodeRune.
  - by rewrite (proj2 (N.ltb_lt _ _) H0).
  - rewrite H0, H1.
    assert ((ord b0 <? 0x80)%N = false) as -> by (bytes; apply N.ltb_ge; lia).
    done.
  - rewrite H0, H1, H2.
    assert ((ord b0 <? 0x80)%N = false) as -> by (bytes; apply N.ltb_ge; lia).
    assert (utf8.between 0xC2 0xDF b0 = false) as ->.
    { unfold utf8.between. bytes. apply andb_false_iff. right. apply N.leb_gt. lia. }
    done.
  - rewrite H0, H1, H2, H3.
    assert ((ord b0 <? 0x80)%N = false) as -> by (bytes; apply N.ltb_ge; lia).
    assert (utf8.between 0xC2 0xDF b0 = false) as ->.
    { unfold utf8.between. bytes. apply andb_false_iff. right. apply N.leb_gt. lia. }
    assert (utf8.between 0xE0 0xEF b0 = false) as ->.
    { unfold utf8.between. bytes. apply andb_false_iff. right. apply N.leb_gt. lia. }
    done.
Qed.

(** The bytes of a head, and the string after it. *)
Lemma head_split s r n :
  head s r n →
  0 < n ∧ n ≤ String.length s
  ∧ String.length (strings.take n s) = n
  ∧ ∀ t, head (strings.take n s +:+ t) r n.
Proof.
  destruct 1; simpl; (split_and!; [lia..|done|intros t; by constructor]).
Qed.

End utf8_facts.

Ltac Zify.zify_post_hook ::= Z.to_euclidean_division_equations.

Section utf8_codec.

Lemma String_inj2 (a b c d : N) (t : string) :
  a = c → b = d → String (chr a) (String (chr b) t) = String (chr c) (String (chr d) t).
Proof. by intros -> ->. Qed.

(** Encoding the rune of a head gives back the bytes of the head. *)
Lemma EncodeRune_head s r n : head s r n → utf8.EncodeRune r = strings.take n s.
Proof.
  destruct 1 as [b s H0|b0 b1 s [H0 H1]|b0 b1 b2 s (H0&H1&H2)
                |b0 b1 b2 b3 s (H0&H1&H2&H3)]; unfold utf8.EncodeRune; simpl.
  - rewrite (proj2 (N.ltb_lt _ _) H0). by rewrite chr_ord.
  - assert (0x80 <= rune2 b0 b1 < 0x800
            ∧ 0xC0 + rune2 b0 b1 / 64 = ord b0
            ∧ 0x80 + rune2 b0 b1 mod 64 = ord b1)%N as (Hr&E0&E1).
    { unfold rune2. bytes. lia. }
    rewrite (proj2 (N.ltb_ge (rune2 b0 b1) 0x80)) by lia.
    rewrite (proj2 (N.ltb_lt (rune2 b0 b1) 0x800)) by lia.
    by rewrite E0, E1, !chr_ord.
  - assert (0x800 <= rune3 b0 b1 b2 < 0x10000
            ∧ ¬ (0xD800 <= rune3 b0 b1 b2 < 0xE000)
            ∧ 0xE0 + rune3 b0 b1 b2 / 4096 = ord b0
            ∧ 0x80 + (rune3 b0 b1 b2 / 64) mod 64 = ord b1
            ∧ 0x80 + rune3 b0 b1 b2 mod 64 = ord b2)%N as (Hr&Hs&E0&E1&E2).
    { unfold rune3. unfold utf8.second in H1.
      destruct (ord b0 =? 0xE0)%N eqn:?; [bytes; lia|].
      destruct (ord b0 =? 0xED)%N eqn:?; [bytes; lia|].
      destruct (ord b0 =? 0xF0)%N eqn:?; [bytes; lia|].
      destruct (ord b0 =? 0xF4)%N eqn:?; [bytes; lia|].
      bytes; lia. }
    rewrite (proj2 (N.ltb_ge (rune3 b0 b1 b2) 0x80)) by lia.
    rewrite (proj2 (N.ltb_ge (rune3 b0 b1 b2) 0x800)) by lia.
    assert ((utf8.MaxRune <? rune3 b0 b1 b2)%N
            || (0xD800 <=? rune3 b0 b1 b2)%N && (rune3 b0 b1 b2 <? 0xE000)%N
            = false) as ->.
    { apply orb_false_iff. split; [apply N.ltb_ge; unfold utf8.MaxRune; lia|].
      apply andb_false_iff.
      destruct (decide (0xD800 <= rune3 b0 b1 b2)%N);
        [right; apply N.ltb_ge|left; apply N.leb_gt]; lia. }
    rewrite (proj2 (N.ltb_lt (rune3 b0 b1 b2) 0x10000)) by lia.
    unfold utf8.enc3. by rewrite E0, E1, E2, !chr_ord.
  - assert (0x10000 <= rune4 b0 b1 b2 b3 <= 0x10FFFF
            ∧ 0xF0 + rune4 b0 b1 b2 b3 / 262144 = ord b0
            ∧ 0x80 + (rune4 b0 b1 b2 b3 / 4096) mod 64 = ord b1
            ∧ 0x80 + (rune4 b0 b1 b2 b3 / 64) mod 64 = ord b2
            ∧ 0x80 + rune4 b0 b1 b2 b3 mod 64 = ord b3)%N as (Hr&E0&E1&E2&E3).
    { unfold rune4. unfold utf8.second in H1.
      destruct (ord b0 =? 0xE0)%N eqn:?; [bytes; lia|].
      destruct (ord b0 =? 0xED)%N eqn:?; [bytes; lia|].
      destruct (ord b0 =? 0xF0)%N eqn:?; [bytes; lia|].
      destruct (ord b0 =? 0xF4)%N eqn:?; [bytes; lia|].
      bytes; lia. }
    rewrite (proj2 (N.ltb_ge (rune4 b0 b1 b2 b3) 0x80)) by lia.
    rewrite (proj2 (N.ltb_ge (rune4 b0 b1 b2 b3) 0x800)) by lia.
    assert ((utf8.MaxRune <? rune4 b0 b1 b2 b3)%N
            || (0xD800 <=? rune4 b0 b1 b2 b3)%N && (rune4 b0 b1 b2 b3 <? 0xE000)%N
            = false) as ->.
    { apply orb_false_iff. split; [apply N.ltb_ge; unfold utf8.MaxRune; lia|].
      apply andb_false_iff. right. apply N.ltb_ge. lia. }
    rewrite (proj2 (N.ltb_ge (rune4 b0 b1 b2 b3) 0x10000)) by lia.
    by rewrite E0, E1, E2, E3, !chr_ord.
Qed.

End utf8_codec.

Section utf8_valid.

(** Whatever the rune, its encoding is a head. *)
Lemma EncodeRune_is_head (r : N) (t : string) :
  ∃ r', head (utf8.EncodeRune r +:+ t) r' (String.length (utf8.EncodeRune r)).
Proof.
  assert (∀ t, ∃ r', head (utf8.enc3 utf8.RuneError +:+ t) r' 3) as Herr.
  { intros t'. eexists. apply head_seq3. by vm_compute. }
  assert (∀ r, (0x800 <= r < 0x10000)%N → ¬ (0xD800 <= r < 0xE000)%N →
               ∀ t, ∃ r', head (utf8.enc3 r +:+ t) r' 3) as Henc3.
  { intros r0 Hr Hs t'. eexists. apply head_seq3.
    unfold seq3, utf8.second, utf8.cont, utf8.between.
    rewrite !ord_chr by lia.
    destruct (0xE0 + r0 / 4096 =? 0xE0)%N eqn:?;
      [bytes; split_and!; apply andb_true_iff; split; apply N.leb_le; lia|].
    destruct (0xE0 + r0 / 4096 =? 0xED)%N eqn:?;
      [bytes; split_and!; apply andb_true_iff; split; apply N.leb_le; lia|].
    destruct (0xE0 + r0 / 4096 =? 0xF0)%N eqn:?; [bytes; lia|].
    destruct (0xE0 + r0 / 4096 =? 0xF4)%N eqn:?; [bytes; lia|].
    split_and!; apply andb_true_iff; split; apply N.leb_le; lia. }
  unfold utf8.EncodeRune.
  destruct (r <? 0x80)%N eqn:H1.
  { eexists. apply head_ascii. bytes. rewrite ord_chr; lia. }
  destruct (r <? 0x800)%N eqn:H2.
  { eexists. apply head_seq2. unfold seq2, utf8.cont, utf8.between.
    bytes. rewrite !ord_chr by lia.
    split; apply andb_true_iff; split; apply N.leb_le; lia. }
  destruct ((utf8.MaxRune <? r)%N || (0xD800 <=? r)%N && (r <? 0xE000)%N) eqn:H3.
  { apply Herr. }
  apply orb_false_iff in H3 as [H3 H4].
  assert (¬ (0xD800 <= r < 0xE000)%N) as Hs.
  { intros [??]. apply andb_false_iff in H4 as [H4|H4]; bytes; lia. }
  destruct (r <? 0x10000)%N eqn:H5.
  { apply Henc3; [bytes; lia|done]. }
  eexists. apply head_seq4. unfold seq4, utf8.second, utf8.cont, utf8.between.
  bytes. rewrite !ord_chr by lia.
  destruct (0xF0 + r / 262144 =? 0xE0)%N eqn:?; [bytes; lia|].
  destruct (0xF0 + r / 262144 =? 0xED)%N eqn:?; [bytes; lia|].
  destruct (0xF0 + r / 262144 =? 0xF0)%N eqn:?;
    [bytes; split_and!; apply andb_true_iff; split; apply N.leb_le; lia|].
  destruct (0xF0 + r / 262144 =? 0xF4)%N eqn:?;
    [bytes; split_and!; apply andb_true_iff; split; apply N.leb_le; lia|].
  bytes. split_and!; apply andb_true_iff; split; apply N.leb_le; lia.
Qed.

Lemma head_not_error s r n : head s r n → ¬ (r = utf8.RuneError ∧ n = 1).
Proof. destruct 1; intros [Hr Hn]; try done. unfold utf8.RuneError in Hr. lia. Qed.

Lemma valid_step_head s r n : head s r n → utf8.valid_step s = Some (strings.drop n s).
Proof.
  intros Hh. unfold utf8.valid_step. rewrite (head_DecodeRune _ _ _ Hh).
  rewrite decide_False; [done|]. by eapply head_not_error.
Qed.

Lemma valid_step_ill s : ill_formed s → utf8.valid_step s = None.
Proof.
  intros (b&r&->&_&Hd). unfold utf8.valid_step. rewrite Hd.
  by rewrite decide_True.
Qed.

Lemma valid_step_shorter s rest :
  s ≠ "" → utf8.valid_step s = Some rest → String.length rest < String.length s.
Proof.
  intros Hs Hstep. destruct (DecodeRune_head s Hs) as [(r&n&Hh&_)|Hill].
  - rewrite (valid_step_head _ _ _ Hh) in Hstep. simplify_eq.
    rewrite drop_length. destruct (head_split _ _ _ Hh) as (?&?&_). lia.
  - by rewrite valid_step_ill in Hstep.
Qed.

Lemma Valid_go_fuel n : ∀ m s,
  String.length s ≤ n → String.length s ≤ m →
  utf8.Valid_go n s = utf8.Valid_go m s.
Proof.
  induction n as [|n IH]; intros m s Hn Hm.
  - destruct s; [by destruct m|simpl in Hn; lia].
  - destruct s as [|c s]; [by destruct m|].
    destruct m as [|m]; [simpl in Hm; lia|].
    cbn [utf8.Valid_go].
    destruct (utf8.valid_step (String c s)) as [rest|] eqn:Hstep; [|done].
    apply valid_step_shorter in Hstep; [|done].
    apply IH; simpl in *; lia.
Qed.

Lemma ValidString_step s :
  s ≠ "" →
  utf8.ValidString s
  = match utf8.valid_step s with
    | Some rest => utf8.ValidString rest
    | None => false
    end.
Proof.
  intros Hs. unfold utf8.ValidString.
  destruct s as [|c s]; [done|]. cbn [String.length utf8.Valid_go].
  destruct (utf8.valid_step (String c s)) as [rest|] eqn:Hstep; [|done].
  apply valid_step_shorter in Hstep; [|done].
  apply Valid_go_fuel; simpl in *; lia.
Qed.

(** A string all of whose heads are well formed, however it is
    continued. *)
Definition chunk (out : string) : Prop :=
  ∀ t, utf8.ValidString (out +:+ t) = utf8.ValidString t.

Lemma chunk_head s r n : head s r n → chunk (strings.take n s).
Proof.
  intros Hh t. destruct (head_split _ _ _ Hh) as (Hn&_&Hlen&Happ).
  rewrite ValidString_step.
  - rewrite (valid_step_head _ _ _ (Happ t)).
    by rewrite <-Hlen at 1; rewrite drop_app_length.
  - specialize (Happ t). by destruct Happ.
Qed.

Lemma chunk_ascii c : (ord c < 0x80)%N → chunk (String c "").
Proof. intros Hc. apply (chunk_head (String c "") (ord c) 1). by constructor. Qed.

Lemma chunk_EncodeRune r : chunk (utf8.EncodeRune r).
Proof.
  intros t. destruct (EncodeRune_is_head r "") as [r' Hh].
  rewrite strings.app_nil_r in Hh.
  pose proof (chunk_head _ _ _ Hh) as Hc.
  destruct (head_split _ _ _ Hh) as (_&_&Hlen&_).
  assert (strings.take (String.length (utf8.EncodeRune r)) (utf8.EncodeRune r)
          = utf8.EncodeRune r) as Htake.
  { rewrite <-(take_drop (String.length (utf8.EncodeRune r)) (utf8.EncodeRune r)) at 3.
    assert (strings.drop (String.length (utf8.EncodeRune r)) (utf8.EncodeRune r) = "") as ->.
    { pose proof (drop_length (String.length (utf8.EncodeRune r)) (utf8.EncodeRune r)) as Hd.
      destruct (strings.drop _ _); [done|simpl in Hd; lia]. }
    by rewrite strings.app_nil_r. }
  rewrite Htake in Hc. apply Hc.
Qed.

Lemma chunk_app out1 out2 : chunk out1 → chunk out2 → chunk (out1 +:+ out2).
Proof. intros H1 H2 t. by rewrite strings.app_assoc, H1, H2. Qed.

End utf8_valid.

(** ** String literals *)

Section json_strings.

Lemma getu4_inv s rr :
  json.getu4 s = Some rr →
  ∃ h1 h2 h3 h4 r2 a b c d,
    s = String "\" (String "u" (String h1 (String h2 (String h3 (String h4 r2)))))
    ∧ json.hexval h1 = Some a ∧ json.hexval h2 = Some b
    ∧ json.hexval h3 = Some c ∧ json.hexval h4 = Some d
    ∧ rr = (a * 4096 + b * 256 + c * 16 + d)%N.
Proof.
  unfold json.getu4. intros Hg.
  destruct s as [|c0 [|c1 [|h1 [|h2 [|h3 [|h4 r2]]]]]]; try by repeat case_match.
  destruct (decide (c0 = "\"%char)) as [->|]; [|by repeat case_match].
  destruct (decide (c1 = "u"%char)) as [->|]; [|by repeat case_match].
  destruct (json.hexval h1) as [a|] eqn:?; [|done].
  destruct (json.hexval h2) as [b|] eqn:?; [|done].
  destruct (json.hexval h3) as [c|] eqn:?; [|done].
  destruct (json.hexval h4) as [d|] eqn:?; [|done].
  simpl in Hg. simplify_eq. by repeat eexists.
Qed.

Lemma getu4_length s rr :
  json.getu4 s = Some rr →
  String.length (strings.drop 6 s) + 6 = String.length s.
Proof.
  intros (h1&h2&h3&h4&r2&a&b&c&d&->&_)%getu4_inv. simpl. lia.
Qed.

Lemma DecodeRune_size s r n :
  s ≠ "" → utf8.DecodeRune s = (r, n) → 0 < n ≤ String.length s.
Proof.
  intros Hs Hd. destruct (DecodeRune_head s Hs) as [(r'&n'&Hh&Hd')|(b&t&->&_&Hd')].
  - rewrite Hd in Hd'. simplify_eq. destruct (head_split _ _ _ Hh) as (?&?&_). lia.
  - rewrite Hd in Hd'. simplify_eq. simpl. lia.
Qed.

Lemma unquote_step_shorter s out rest :
  json.unquote_step s = Some (out, rest) →
  String.length rest < String.length s.
Proof.
  unfold json.unquote_step. destruct s as [|c r]; [done|].
  destruct (bool_decide (c = "\"%char)) eqn:Hc.
  - destruct r as [|e r1]; [done|].
    repeat (case_match; [intros; simplify_eq; simpl; lia|]).
    case_match; [|done].
    generalize (String c (String e r1)). intros s0.
    destruct (json.getu4 s0) as [rr|] eqn:Hg; [|done].
    pose proof (getu4_length _ _ Hg) as Hlen. cbn [mbind option_bind].
    destruct (utf16.IsSurrogate rr).
    + destruct (decide _); intros; simplify_eq; rewrite ?drop_length; lia.
    + intros; simplify_eq. lia.
  - case_match; [done|]. case_match; [intros; simplify_eq; simpl; lia|].
    destruct (utf8.DecodeRune (String c r)) as [rr size] eqn:Hd.
    intros; simplify_eq. rewrite drop_length.
    apply DecodeRune_size in Hd; [|done]. lia.
Qed.

Lemma unquote_go_fuel n : ∀ m s,
  String.length s ≤ n → String.length s ≤ m →
  json.unquote_go n s = json.unquote_go m s.
Proof.
  induction n as [|n IH]; intros m s Hn Hm.
  - destruct s; [by destruct m|simpl in Hn; lia].
  - destruct s as [|c s]; [by destruct m|].
    destruct m as [|m]; [simpl in Hm; lia|].
    cbn [json.unquote_go].
    destruct (json.unquote_step (String c s)) as [[out rest]|] eqn:Hstep; [|done].
    apply unquote_step_shorter in Hstep. simpl.
    rewrite (IH m rest); [done|simpl in *; lia..].
Qed.

Lemma unquote_step_eq s :
  s ≠ "" →
  json.unquote s
  = '(out, rest) ← json.unquote_step s;
    t ← json.unquote rest; Some (out +:+ t).
Proof.
  intros Hs. unfold json.unquote. destruct s as [|c s]; [done|].
  cbn [String.length json.unquote_go].
  destruct (json.unquote_step (String c s)) as [[out rest]|] eqn:Hstep; [|done].
  apply unquote_step_shorter in Hstep. simpl.
  rewrite (unquote_go_fuel _ (String.length rest)); [done|simpl in *; lia..].
Qed.

(** What [unquote] returns is well-formed UTF-8. *)
Lemma unquote_step_chunk s out rest :
  json.unquote_step s = Some (out, rest) → chunk out.
Proof.
  unfold json.unquote_step. destruct s as [|c r]; [done|].
  destruct (bool_decide (c = "\"%char)) eqn:Hc.
  - destruct r as [|e r1]; [done|].
    case_match.
    { intros; simplify_eq. apply chunk_ascii.
      repeat match goal with
        | H : _ || _ = true |- _ => apply orb_true_iff in H as [H|H]
        end; bytes; subst; by vm_compute. }
    repeat (case_match; [intros; simplify_eq; apply chunk_ascii; by vm_compute|]).
    case_match; [|done].
    destruct (json.getu4 (String c (String e r1))) as [rr|]; [|done]. simpl.
    destruct (utf16.IsSurrogate rr).
    + destruct (decide _); intros; simplify_eq; apply chunk_EncodeRune.
    + intros; simplify_eq; apply chunk_EncodeRune.
  - case_match; [done|].
    case_match; [intros; simplify_eq; apply chunk_ascii; by bytes|].
    destruct (utf8.DecodeRune (String c r)) as [rr size].
    intros; simplify_eq. apply chunk_EncodeRune.
Qed.

Lemma ValidString_nil : utf8.ValidString "" = true.
Proof. done. Qed.

Lemma unquote_valid : ∀ raw s, json.unquote raw = Some s → utf8.ValidString s = true.
Proof.
  intros raw. remember (String.length raw) as n eqn:Hn. revert raw Hn.
  induction (lt_wf n) as [n _ IH]. intros raw -> s.
  destruct (decide (raw = "")) as [->|Hraw].
  { intros [= <-]. done. }
  rewrite unquote_step_eq by done.
  destruct (json.unquote_step raw) as [[out rest]|] eqn:Hstep; [|done]. simpl.
  destruct (json.unquote rest) as [t|] eqn:Ht; [|done]. simpl. intros [= <-].
  rewrite (unquote_step_chunk _ _ _ Hstep).
  eapply IH; [|done..]. by eapply unquote_step_shorter.
Qed.

End json_strings.

Section json_quote.

Lemma quote_step_shorter s :
  s ≠ "" → String.length (json.quote_step s).2 < String.length s.
Proof.
  intros Hs. unfold json.quote_step. destruct s as [|b r]; [done|].
  destruct (ord b <? 0x80)%N.
  { repeat case_match; simpl; lia. }
  destruct (utf8.DecodeRune (String b r)) as [c size] eqn:Hd.
  apply DecodeRune_size in Hd; [|done].
  repeat case_match; simpl; rewrite ?drop_length; simpl in *; lia.
Qed.

Lemma quote_go_fuel n : ∀ m s,
  String.length s ≤ n → String.length s ≤ m →
  json.quote_go n s = json.quote_go m s.
Proof.
  induction n as [|n IH]; intros m s Hn Hm.
  - destruct s; [by destruct m|simpl in Hn; lia].
  - destruct s as [|c s]; [by destruct m|].
    destruct m as [|m]; [simpl in Hm; lia|].
    cbn [json.quote_go].
    pose proof (quote_step_shorter (String c s) ltac:(done)) as Hlt.
    destruct (json.quote_step (String c s)) as [out rest].
    rewrite (IH m rest); [done|simpl in *; lia..].
Qed.

Lemma quote_body_step s :
  s ≠ "" →
  json.quote_body s
  = (json.quote_step s).1 +:+ json.quote_body (json.quote_step s).2.
Proof.
  intros Hs. unfold json.quote_body. destruct s as [|c s]; [done|].
  cbn [String.length json.quote_go].
  pose proof (quote_step_shorter (String c s) ltac:(done)) as Hlt.
  destruct (json.quote_step (String c s)) as [out rest]. simpl.
  rewrite (quote_go_fuel _ (String.length rest)); [done|simpl in *; lia..].
Qed.

Lemma cons2_cons2 a b x :
  json.cons2 a (json.cons2 b x) = json.cons2 (a +:+ b) x.
Proof.
  destruct x as [[body rest]|]; simpl; [|done].
  by rewrite strings.app_assoc.
Qed.

(** What the encoder writes for a character below 128. *)
Definition esc (b : ascii) : string := (json.quote_step (String b "")).1.

Lemma quote_step_ascii b r :
  (ord b < 0x80)%N → json.quote_step (String b r) = (esc b, r).
Proof.
  intros Hb. unfold esc, json.quote_step.
  rewrite (proj2 (N.ltb_lt _ _) Hb). by repeat case_match.
Qed.

Lemma esc_spec b :
  (ord b < 0x80)%N →
  esc b ≠ ""
  ∧ (∀ q, json.unquote_step (esc b +:+ q) = Some (String b "", q))
  ∧ (∀ q, json.scan_string (esc b +:+ q) = json.cons2 (esc b) (json.scan_string q)).
Proof.
  destruct b as [[] [] [] [] [] [] [] []]; intros Hb;
    try (by vm_compute in Hb);
    (split_and!; [done|intros q; by vm_compute..]).
Qed.

Lemma high_byte c :
  (0x80 <= ord c)%N →
  bool_decide (c = "\"%char) = false ∧ bool_decide (c = dquote) = false
  ∧ (ord c <? 0x20)%N = false ∧ (ord c <? 0x80)%N = false.
Proof.
  intros Hc. split_and!; try (apply N.ltb_ge; lia);
    apply bool_decide_eq_false; intros ->; by vm_compute in Hc.
Qed.

Lemma scan_string_high c q :
  (0x80 <= ord c)%N →
  json.scan_string (String c q) = json.cons2 (String c "") (json.scan_string q).
Proof. intros (H1&H2&H3&_)%high_byte. cbn [json.scan_string]. by rewrite H1, H2, H3. Qed.

Lemma unquote_step_high c t :
  (0x80 <= ord c)%N →
  json.unquote_step (String c t)
  = Some (utf8.EncodeRune (utf8.DecodeRune (String c t)).1,
          strings.drop (utf8.DecodeRune (String c t)).2 (String c t)).
Proof.
  intros (H1&H2&H3&H4)%high_byte. unfold json.unquote_step.
  rewrite H1, H2, H3, H4. cbn [orb]. by destruct (utf8.DecodeRune (String c t)).
Qed.

(** The bytes of a head of more than one byte are all above 127. *)
Lemma head_high s r n :
  head s r n → 1 < n →
  (∃ b t, s = String b t ∧ (0x80 <= ord b)%N)
  ∧ ∀ q, json.scan_string (strings.take n s +:+ q)
         = json.cons2 (strings.take n s) (json.scan_string q).
Proof.
  destruct 1 as [b s H0|b0 b1 s [H0 H1]|b0 b1 b2 s (H0&H1&H2)
                |b0 b1 b2 b3 s (H0&H1&H2&H3)]; intros Hn; [lia|..].
  - assert (0x80 <= ord b0 ∧ 0x80 <= ord b1)%N as [??] by (bytes; lia).
    split; [by do 2 eexists|]. intros q. cbn [strings.take].
    rewrite !strings.app_cons, strings.app_nil_l.
    rewrite !scan_string_high by done. by rewrite !cons2_cons2.
  - assert (0x80 <= ord b0 ∧ 0x80 <= ord b1 ∧ 0x80 <= ord b2)%N as (?&?&?).
    { unfold utf8.second in H1. repeat case_match; bytes; lia. }
    split; [by do 2 eexists|]. intros q. cbn [strings.take].
    rewrite !strings.app_cons, strings.app_nil_l.
    rewrite !scan_string_high by done. by rewrite !cons2_cons2.
  - assert (0x80 <= ord b0 ∧ 0x80 <= ord b1 ∧ 0x80 <= ord b2 ∧ 0x80 <= ord b3)%N
      as (?&?&?&?).
    { unfold utf8.second in H1. repeat case_match; bytes; lia. }
    split; [by do 2 eexists|]. intros q. cbn [strings.take].
    rewrite !strings.app_cons, strings.app_nil_l.
    rewrite !scan_string_high by done. by rewrite !cons2_cons2.
Qed.

(** One round of the encoder on a well-formed head, read back. *)
Lemma quote_step_head s r n :
  head s r n →
  ∃ out, json.quote_step s = (out, strings.drop n s)
    ∧ out ≠ ""
    ∧ (∀ q, json.unquote_step (out +:+ q) = Some (strings.take n s, q))
    ∧ (∀ q, json.scan_string (out +:+ q) = json.cons2 out (json.scan_string q)).
Proof.
  intros Hh. destruct (decide (n = 1)) as [->|Hn].
  { inversion Hh as [b t Hb| | |]; subst.
    exists (esc b). rewrite quote_step_ascii by done.
    destruct (esc_spec b Hb) as (?&?&?). done. }
  destruct (head_split _ _ _ Hh) as (Hpos&Hle&Hlen&Happ).
  destruct (head_high _ _ _ Hh) as [(b&t&->&Hb) Hscan]; [lia|].
  destruct (high_byte b Hb) as (Hb1&Hb2&Hb3&Hb4).
  pose proof (EncodeRune_head _ _ _ Hh) as Henc.
  unfold json.quote_step. rewrite Hb4, (head_DecodeRune _ _ _ Hh).
  rewrite decide_False by (intros [_ ?]; lia).
  assert (∀ q, json.unquote_step (strings.take n (String b t) +:+ q)
               = Some (strings.take n (String b t), q)) as Hverb.
  { intros q. specialize (Happ q).
    destruct n as [|n]; [lia|]. cbn [strings.take] in *.
    rewrite strings.app_cons in *. rewrite unquote_step_high by done.
    rewrite (head_DecodeRune _ _ _ Happ). cbn [fst snd].
    rewrite Henc. f_equal. f_equal.
    rewrite <-strings.app_cons.
    change (String b (strings.take n t)) with (strings.take (S n) (String b t)).
    by rewrite <-Hlen at 1; rewrite drop_app_length. }
  destruct (decide (r = 0x2028%N ∨ r = 0x2029%N)) as [Hr|Hr].
  - eexists. split; [done|].
    destruct Hr as [-> | ->]; (split_and!; [done|intros q|intros q; by vm_compute]).
    + rewrite <-Henc. by vm_compute.
    + rewrite <-Henc. by vm_compute.
  - eexists. split; [done|]. split_and!; [|done|done].
    destruct n; [lia|]. done.
Qed.

(** A well-formed string is read back from what the encoder writes for
    it, and the scanner finds the end of what the encoder writes. *)
Lemma quote_body_spec : ∀ s,
  utf8.ValidString s = true →
  json.unquote (json.quote_body s) = Some s
  ∧ ∀ rest, json.scan_string (json.quote_body s +:+ String dquote rest)
            = Some (json.quote_body s, rest).
Proof.
  intros s. remember (String.length s) as n eqn:Hn. revert s Hn.
  induction (lt_wf n) as [n _ IH]. intros s -> Hvalid.
  destruct (decide (s = "")) as [->|Hs].
  { split; [done|]. intros rest. by vm_compute. }
  rewrite ValidString_step in Hvalid by done.
  destruct (DecodeRune_head s Hs) as [(r&k&Hh&_)|Hill];
    [|by rewrite valid_step_ill in Hvalid].
  rewrite (valid_step_head _ _ _ Hh) in Hvalid.
  destruct (quote_step_head _ _ _ Hh) as (out&Hq&Hout&Hun&Hscan).
  destruct (head_split _ _ _ Hh) as (Hpos&Hle&_).
  destruct (IH (String.length (strings.drop k s))) with (s := strings.drop k s)
    as [IHun IHscan]; [rewrite drop_length; lia|done..|].
  rewrite quote_body_step, Hq by done. cbn [fst snd]. split.
  - rewrite unquote_step_eq by (by destruct out).
    rewrite Hun. simpl. rewrite IHun. simpl. by rewrite take_drop.
  - intros rest. rewrite strings.app_assoc, Hscan, IHscan. done.
Qed.

End json_quote.

(** ** Number literals *)

Section json_numbers.

Definition is_dot (c : ascii) : bool := bool_decide (c = "."%char).
Definition is_e (c : ascii) : bool :=
  bool_decide (c = "e"%char) || bool_decide (c = "E"%char).

(** What may follow a number literal without being taken for more of
    it. *)
Definition number_end (t : string) : bool :=
  negb (json.starts json.is_digit t) && negb (json.starts is_dot t) && negb (json.starts is_e t).

Fixpoint all_digits (s : string) : bool :=
  match s with
  | String c r => json.is_digit c && all_digits r
  | "" => true
  end.

Lemma starts_app P s t : s ≠ "" → json.starts P (s +:+ t) = json.starts P s.
Proof. by destruct s. Qed.

Lemma span_digits_spec s ds r :
  json.span_digits s = (ds, r) →
  all_digits ds = true ∧ json.starts json.is_digit r = false ∧ s = ds +:+ r.
Proof.
  revert ds r. induction s as [|c s IH]; intros ds r; simpl.
  - by intros [= <- <-].
  - destruct (json.is_digit c) eqn:Hc.
    + destruct (json.span_digits s) as [ds' r'].
      intros [= <- <-]. destruct (IH ds' r') as (?&?&->); [done|].
      simpl. by rewrite Hc.
    + intros [= <- <-]. simpl. by rewrite Hc.
Qed.

Lemma span_digits_app ds t :
  all_digits ds = true → json.starts json.is_digit t = false →
  json.span_digits (ds +:+ t) = (ds, t).
Proof.
  intros Hds Ht. induction ds as [|c ds IH].
  - destruct t as [|c t]; [done|]. simpl in *. by rewrite Ht.
  - simpl in Hds. apply andb_true_iff in Hds as [Hc Hds].
    rewrite strings.app_cons. simpl. by rewrite Hc, IH.
Qed.

Lemma scan_digits1_spec s ds r :
  json.scan_digits1 s = Some (ds, r) →
  ds ≠ "" ∧ all_digits ds = true ∧ json.starts json.is_digit r = false.
Proof.
  unfold json.scan_digits1.
  destruct (json.span_digits s) as [ds' r'] eqn:Hs.
  case_decide; [done|]. intros [= <- <-].
  by destruct (span_digits_spec _ _ _ Hs) as (?&?&_).
Qed.

Lemma scan_digits1_app ds t :
  ds ≠ "" → all_digits ds = true → json.starts json.is_digit t = false →
  json.scan_digits1 (ds +:+ t) = Some (ds, t).
Proof.
  intros Hne Hds Ht. unfold json.scan_digits1.
  rewrite span_digits_app by done. by rewrite decide_False.
Qed.

Lemma scan_int_stable s i r :
  json.scan_int s = Some (i, r) →
  json.starts json.is_digit i = true
  ∧ ∀ t, json.starts json.is_digit t = false → json.scan_int (i +:+ t) = Some (i, t).
Proof.
  unfold json.scan_int. destruct s as [|c s]; [done|].
  destruct (bool_decide (c = "0"%char)) eqn:H0.
  { intros [= <- <-]. done. }
  destruct (json.is_digit c) eqn:Hc; [|done].
  intros Hs.
  assert (json.span_digits (String c s) = (i, r)) as Hsp by congruence.
  clear Hs. apply span_digits_spec in Hsp as (Hds&Hr&Heq).
  destruct i as [|c' i];
    [rewrite strings.app_nil_l in Heq; subst r; simpl in Hr; congruence|].
  rewrite strings.app_cons in Heq. injection Heq as <- ->.
  split; [done|]. intros t Ht. rewrite strings.app_cons.
  rewrite H0, Hc. rewrite <-strings.app_cons. by rewrite span_digits_app.
Qed.

Lemma scan_frac_stable s f r :
  json.scan_frac s = Some (f, r) →
  (f = "" ∨ json.starts is_dot f = true)
  ∧ ∀ t, json.starts json.is_digit t = false → (f = "" → json.starts is_dot t = false) →
         json.scan_frac (f +:+ t) = Some (f, t).
Proof.
  unfold json.scan_frac. destruct s as [|c s].
  { intros [= <- <-]. split; [by left|]. intros t _ Ht.
    specialize (Ht eq_refl). destruct t as [|c t]; [done|].
    simpl in Ht. unfold is_dot in Ht. apply bool_decide_eq_false in Ht.
    rewrite strings.app_nil_l. by repeat case_match. }
  destruct (decide (c = "."%char)) as [->|Hc].
  - destruct (json.scan_digits1 s) as [[ds r']|] eqn:Hs; [|done].
    simpl. intros [= <- <-]. split; [by right|]. intros t Ht _.
    apply scan_digits1_spec in Hs as (?&?&?).
    rewrite strings.app_cons. by rewrite scan_digits1_app.
  - intros Hs.
    assert (f = "" ∧ r = String c s) as [-> ->] by (by repeat case_match; simplify_eq).
    split; [by left|]. intros t _ Ht. specialize (Ht eq_refl).
    destruct t as [|c' t]; [done|].
    simpl in Ht. unfold is_dot in Ht. apply bool_decide_eq_false in Ht.
    rewrite strings.app_nil_l. by repeat case_match.
Qed.

Lemma scan_exp_stable s e r :
  json.scan_exp s = Some (e, r) →
  (e = "" ∨ json.starts is_e e = true)
  ∧ ∀ t, json.starts json.is_digit t = false → (e = "" → json.starts is_e t = false) →
         json.scan_exp (e +:+ t) = Some (e, t).
Proof.
  unfold json.scan_exp. destruct s as [|c s].
  { intros [= <- <-]. split; [by left|]. intros t _ Ht.
    specialize (Ht eq_refl). destruct t as [|c t]; [done|].
    simpl in Ht. unfold is_e in Ht. rewrite strings.app_nil_l. by rewrite Ht. }
  destruct (bool_decide (c = "e"%char) || bool_decide (c = "E"%char)) eqn:Hc.
  - destruct s as [|g s]; [done|].
    destruct (bool_decide (g = "+"%char) || bool_decide (g = "-"%char)) eqn:Hg.
    + destruct (json.scan_digits1 s) as [[ds r']|] eqn:Hs; [|done].
      simpl. intros [= <- <-]. split; [by right|]. intros t Ht _.
      apply scan_digits1_spec in Hs as (?&?&?).
      rewrite !strings.app_cons, Hc, Hg. by rewrite scan_digits1_app.
    + destruct (json.scan_digits1 (String g s)) as [[ds r']|] eqn:Hs; [|done].
      simpl. intros [= <- <-]. split; [by right|]. intros t Ht _.
      pose proof Hs as Hs'. apply scan_digits1_spec in Hs' as (Hne&Hds&?).
      destruct ds as [|d ds]; [done|].
      assert (d = g) as ->.
      { unfold json.scan_digits1 in Hs.
        destruct (json.span_digits (String g s)) as [ds' r''] eqn:Hsp.
        case_decide; [done|]. simplify_eq.
        apply span_digits_spec in Hsp as (_&_&Heq).
        rewrite strings.app_cons in Heq. by simplify_eq. }
      rewrite !strings.app_cons, Hc, Hg.
      rewrite <-strings.app_cons. by rewrite scan_digits1_app.
  - intros [= <- <-]. split; [by left|]. intros t _ Ht.
    specialize (Ht eq_refl). destruct t as [|c' t]; [done|].
    simpl in Ht. unfold is_e in Ht. rewrite strings.app_nil_l. by rewrite Ht.
Qed.

(** A literal the scanner has delimited is delimited again, whole, when
    it is followed by something that ends a number. *)
Lemma scan_number_stable s lit rest :
  json.scan_number s = Some (lit, rest) →
  (json.starts json.is_digit lit = true ∨ json.starts (λ c, bool_decide (c = "-"%char)) lit = true)
  ∧ ∀ t, number_end t = true → json.scan_number (lit +:+ t) = Some (lit, t).
Proof.
  unfold json.scan_number.
  set (split_sign := λ s : string,
         match s with String "-" r => ("-", r) | _ => ("", s) end).
  change (match s with String "-" r => ("-", r) | _ => ("", s) end)
    with (split_sign s).
  destruct (split_sign s) as [sign s0] eqn:Hsign.
  destruct (json.scan_int s0) as [[i s1]|] eqn:Hi; simpl; [|done].
  destruct (json.scan_frac s1) as [[f s2]|] eqn:Hf; simpl; [|done].
  destruct (json.scan_exp s2) as [[e s3]|] eqn:He; simpl; [|done].
  intros [= <- <-].
  apply scan_int_stable in Hi as [Hi0 Hi].
  apply scan_frac_stable in Hf as [Hf0 Hf].
  apply scan_exp_stable in He as [He0 He].
  assert (i ≠ "") as Hine by (by destruct i).
  assert (sign = "" ∨ sign = "-") as Hs.
  { subst split_sign. simpl in Hsign. repeat case_match; simplify_eq; auto. }
  split.
  { destruct Hs as [-> | ->]; [left|by right].
    rewrite strings.app_nil_l. by rewrite starts_app. }
  intros t Ht. unfold number_end in Ht.
  apply andb_true_iff in Ht as [[Ht1 Ht2]%andb_true_iff Ht3].
  apply negb_true_iff in Ht1, Ht2, Ht3.
  assert (json.starts json.is_digit (e +:+ t) = false
          ∧ (f = "" → json.starts is_dot (e +:+ t) = false)) as [Het1 Het2].
  { destruct He0 as [->|He0]; [by rewrite strings.app_nil_l|].
    destruct e as [|c e]; [done|]. rewrite strings.app_cons. simpl in *.
    unfold is_e, is_dot, json.is_digit in *.
    split; [|intros _]; repeat match goal with
      | H : _ || _ = true |- _ => apply orb_true_iff in H as [H|H]
      end; apply bool_decide_eq_true in He0; subst; done. }
  assert (json.starts json.is_digit (f +:+ e +:+ t) = false) as Hfet.
  { destruct Hf0 as [->|Hf0]; [by rewrite strings.app_nil_l|].
    destruct f as [|c f]; [done|]. rewrite strings.app_cons. simpl in *.
    unfold is_dot in Hf0. apply bool_decide_eq_true in Hf0. by subst. }
  assert (split_sign ((sign +:+ i +:+ f +:+ e) +:+ t)
          = (sign, i +:+ f +:+ e +:+ t)) as Hsplit.
  { rewrite !strings.app_assoc.
    destruct Hs as [-> | ->]; [|done].
    rewrite strings.app_nil_l. destruct i as [|c i]; [done|].
    rewrite strings.app_cons. simpl in Hi0. subst split_sign. simpl.
    repeat case_match; simplify_eq; done. }
  change (match (sign +:+ i +:+ f +:+ e) +:+ t with
          | String "-" r => ("-", r) | _ => ("", (sign +:+ i +:+ f +:+ e) +:+ t)
          end) with (split_sign ((sign +:+ i +:+ f +:+ e) +:+ t)).
  rewrite Hsplit. rewrite Hi by done. simpl.
  rewrite Hf by done. simpl. rewrite He by (done || (intros ->; done)). done.
Qed.

End json_numbers.

(** ** Values *)

(** The floats the decoder can produce: those [ParseFloat] gives for a
    literal of the scanner. *)
Definition produced `{Float64} (f : float64) : Prop :=
  ∃ s lit rest, json.scan_number s = Some (lit, rest) ∧ ParseFloat lit = Some f.

(** What is assumed of [strconv]: a float the decoder has produced is
    written as a number literal, and that literal is read back as the same
    float. *)
Class Float64Laws `{Float64} : Prop := {
  FormatFloat_scans : ∀ f, produced f →
    ∀ t, number_end t = true →
      json.scan_number (FormatFloat f +:+ t) = Some (FormatFloat f, t);
  ParseFloat_FormatFloat : ∀ f, produced f → ParseFloat (FormatFloat f) = Some f
}.

(** The values the decoder can produce: their strings and keys are
    well-formed UTF-8 and their floats are [produced]. *)
Inductive decoded `{Float64} : value → Prop :=
  | decoded_VNil : decoded VNil
  | decoded_VBool b : decoded (VBool b)
  | decoded_VFloat f : produced f → decoded (VFloat f)
  | decoded_VString s : utf8.ValidString s = true → decoded (VString s)
  | decoded_VSlice l : Forall decoded l → decoded (VSlice l)
  | decoded_VMap m :
      map_Forall (λ k v, utf8.ValidString k = true ∧ decoded v) m →
      decoded (VMap m).

Section values.
Context `{Float64}.

Fixpoint vsize (v : value) : nat :=
  match v with
  | VSlice l => S (foldr (λ x n, vsize x + n) 0 l)
  | VMap m => S (map_fold (λ _ x n, vsize x + n) 0 m)
  | _ => 1
  end.

Lemma vsize_elem (l : list value) (x : value) :
  x ∈ l → vsize x < vsize (VSlice l).
Proof.
  intros Hx. simpl. induction Hx as [x l|x y l _ IH]; simpl; lia.
Qed.

Lemma vsize_lookup (m : gmap string value) (k : string) (x : value) :
  m !! k = Some x → vsize x < vsize (VMap m).
Proof.
  intros Hk. simpl. rewrite (map_fold_delete_L _ _ k x m); [lia| |done].
  intros. lia.
Qed.

(** Induction on values, through slices and maps. *)
Lemma value_ind' (P : value → Prop) :
  P VNil → (∀ b, P (VBool b)) → (∀ f, P (VFloat f)) → (∀ s, P (VString s)) →
  (∀ l, Forall P l → P (VSlice l)) →
  (∀ m, map_Forall (λ _ v, P v) m → P (VMap m)) →
  ∀ v, P v.
Proof.
  intros Hnil Hbool Hfloat Hstring Hslice Hmap v.
  remember (vsize v) as n eqn:Hn. revert v Hn.
  induction (lt_wf n) as [n _ IH]. intros v ->.
  destruct v as [|b|f|s|l|m]; auto.
  - apply Hslice. apply Forall_forall. intros x Hx.
    eapply IH; [by apply vsize_elem|done].
  - apply Hmap. intros k x Hk.
    eapply IH; [by eapply vsize_lookup|done].
Qed.

(** *** White space and first characters *)

(** The characters a value can start with. *)
Definition value_start (c : ascii) : bool :=
  json.is_digit c || bool_decide (c = "-"%char) || bool_decide (c = dquote)
  || bool_decide (c = "["%char) || bool_decide (c = "{"%char)
  || bool_decide (c = "t"%char) || bool_decide (c = "f"%char)
  || bool_decide (c = "n"%char).

Lemma skip_ws_start (P : ascii → bool) (s : string) :
  (∀ c, P c = true → json.isSpace c = false) →
  json.starts P s = true → json.skip_ws s = s.
Proof. intros HP. destruct s as [|c s]; [done|]. simpl. intros ?%HP. by rewrite H0. Qed.

Lemma value_start_not_space c : value_start c = true → json.isSpace c = false.
Proof. destruct c as [[] [] [] [] [] [] [] []]; by vm_compute. Qed.

Lemma skip_ws_value s : json.starts value_start s = true → json.skip_ws s = s.
Proof. apply skip_ws_start, value_start_not_space. Qed.

Definition is_punct (c : ascii) : bool :=
  bool_decide (c = ","%char) || bool_decide (c = "]"%char)
  || bool_decide (c = "}"%char) || bool_decide (c = ":"%char).

Lemma skip_ws_punct s : json.starts is_punct s = true → json.skip_ws s = s.
Proof.
  apply skip_ws_start. intros c.
  destruct c as [[] [] [] [] [] [] [] []]; by vm_compute.
Qed.

Lemma number_end_punct s : json.starts is_punct s = true → number_end s = true.
Proof.
  destruct s as [|c s]; [done|]. simpl. unfold number_end. simpl.
  destruct c as [[] [] [] [] [] [] [] []]; by vm_compute.
Qed.

End values.

(** ** Decoding what the encoder writes *)

Section parse_steps.
Context `{Float64}.

Lemma parse_value_null fuel t :
  json.parse_value (S fuel) ("null" +:+ t) = Ok (VNil, t).
Proof. vm_compute. reflexivity. Qed.

Lemma parse_value_true fuel t :
  json.parse_value (S fuel) ("true" +:+ t) = Ok (VBool true, t).
Proof. vm_compute. reflexivity. Qed.

Lemma parse_value_false fuel t :
  json.parse_value (S fuel) ("false" +:+ t) = Ok (VBool false, t).
Proof. vm_compute. reflexivity. Qed.

Lemma parse_value_string fuel r :
  json.parse_value (S fuel) (String dquote r)
  = '(str, r') ← json.string_lit r; Ok (VString str, r').
Proof. reflexivity. Qed.

Lemma parse_value_array fuel r :
  json.parse_value (S fuel) (String "[" r)
  = if json.starts (json.is_char "]") (json.skip_ws r)
    then Ok (VSlice [], strings.drop 1 (json.skip_ws r))
    else '(vs, r') ← json.parse_elements fuel r; Ok (VSlice vs, r').
Proof. reflexivity. Qed.

Lemma parse_value_object fuel r :
  json.parse_value (S fuel) (String "{" r)
  = if json.starts (json.is_char "}") (json.skip_ws r)
    then Ok (VMap ∅, strings.drop 1 (json.skip_ws r))
    else '(kvs, r') ← json.parse_members fuel r; Ok (VMap (json.object_of kvs), r').
Proof. reflexivity. Qed.

Lemma parse_value_number fuel s :
  json.starts json.is_digit s = true ∨ json.starts (json.is_char "-") s = true →
  json.parse_value (S fuel) s = json.number_lit s.
Proof.
  destruct s as [|c r]; [by intros []|]. simpl json.starts.
  destruct c as [[] [] [] [] [] [] [] []]; intros [Hc|Hc];
    try (by vm_compute in Hc); reflexivity.
Qed.

Lemma parse_elements_S fuel s :
  json.parse_elements (S fuel) s
  = '(v, r) ← json.parse_value fuel s;
    match json.skip_ws r with
    | String p r' =>
        if bool_decide (p = ","%char) then
          '(vs, r'') ← json.parse_elements fuel r'; Ok (v :: vs, r'')
        else if bool_decide (p = "]"%char) then Ok ([v], r')
        else Err SyntaxError
    | "" => Err SyntaxError
    end.
Proof. reflexivity. Qed.

Lemma parse_members_S fuel r :
  json.parse_members (S fuel) (String dquote r)
  = '(key, r1) ← json.string_lit r;
    match json.skip_ws r1 with
    | String p r2 =>
        if bool_decide (p = ":"%char) then
          '(v, r3) ← json.parse_value fuel r2;
          match json.skip_ws r3 with
          | String p' r4 =>
              if bool_decide (p' = ","%char) then
                '(kvs, r5) ← json.parse_members fuel r4;
                Ok ((key, v) :: kvs, r5)
              else if bool_decide (p' = "}"%char) then Ok ([(key, v)], r4)
              else Err SyntaxError
          | "" => Err SyntaxError
          end
        else Err SyntaxError
    | "" => Err SyntaxError
    end.
Proof. reflexivity. Qed.

Lemma string_lit_quote s t :
  utf8.ValidString s = true →
  json.string_lit (json.quote_body s +:+ String dquote t) = Ok (s, t).
Proof.
  intros [Hun Hscan]%quote_body_spec. unfold json.string_lit.
  by rewrite Hscan, Hun.
Qed.

End parse_steps.

Section roundtrip.
Context `{Float64} `{!Float64Laws}.

(** Right-nested form of a concatenation that starts with literals. *)
Ltac flat :=
  repeat (rewrite strings.app_assoc || rewrite strings.app_cons
          || rewrite strings.app_nil_l).

Lemma FormatFloat_start f :
  produced f →
  json.starts json.is_digit (FormatFloat f) = true
  ∨ json.starts (json.is_char "-") (FormatFloat f) = true.
Proof.
  intros Hf. pose proof (FormatFloat_scans f Hf "" eq_refl) as Hs.
  rewrite strings.app_nil_r in Hs. by apply scan_number_stable in Hs as [Hs _].
Qed.

Lemma starts_mono (P Q : ascii → bool) s :
  (∀ c, P c = true → Q c = true) → json.starts P s = true → json.starts Q s = true.
Proof. intros HPQ. destruct s; [done|]. apply HPQ. Qed.

Lemma encode_start v : decoded v → json.starts value_start (json.encode v) = true.
Proof.
  destruct 1 as [|[]|f Hf|s|l|m]; try done.
  destruct (FormatFloat_start f Hf) as [Hs|Hs]; revert Hs; apply starts_mono;
    intros c Hc; unfold value_start, json.is_char in *; rewrite Hc;
    by rewrite ?orb_true_r.
Qed.

Lemma encode_length v : decoded v → 0 < String.length (json.encode v).
Proof. intros Hv%encode_start. destruct (json.encode v); [done|simpl; lia]. Qed.

(** What the induction gives for a value: it is decoded back, with fuel
    for its length, from its encoding followed by something that ends a
    number. *)
Definition reads_back (v : value) : Prop :=
  ∀ t fuel, number_end t = true →
    String.length (json.encode v) ≤ fuel →
    json.parse_value fuel (json.encode v +:+ t) = Ok (v, t).

Lemma Join_length_cons (x : string) (l : list string) sep :
  l ≠ [] →
  String.length (strings.Join (x :: l) sep)
  = String.length x + String.length sep + String.length (strings.Join l sep).
Proof.
  intros Hl. destruct l as [|y l]; [done|].
  change (strings.Join (x :: y :: l) sep) with (x +:+ sep +:+ strings.Join (y :: l) sep).
  rewrite !length_app. lia.
Qed.

Lemma parse_elements_Join (l : list value) :
  l ≠ [] → Forall reads_back l →
  ∀ t fuel,
    String.length (strings.Join (json.encode <$> l) ",") < fuel →
    json.parse_elements fuel (strings.Join (json.encode <$> l) "," +:+ String "]" t)
    = Ok (l, t).
Proof.
  induction l as [|x l IH]; [done|]. intros _ Hl t fuel Hfuel.
  apply Forall_cons in Hl as [Hx Hl].
  destruct fuel as [|fuel]; [lia|]. rewrite parse_elements_S.
  destruct l as [|y l].
  - change (strings.Join (json.encode <$> [x]) ",") with (json.encode x) in *.
    rewrite Hx by (done || lia). reflexivity.
  - change (json.encode <$> x :: y :: l)
      with (json.encode x :: (json.encode <$> y :: l)) in *.
    rewrite Join_length_cons in Hfuel by done.
    rewrite Join_cons by done. flat.
    rewrite Hx by (done || lia). cbn [mbind result_bind].
    change (json.skip_ws (String "," ?r)) with (String "," r). cbv beta iota.
    rewrite bool_decide_eq_true_2 by done.
    rewrite IH; [done|done|done|].
    change (String.length ",") with 1 in Hfuel. lia.
Qed.

Definition entry_ok (kv : string * value) : Prop :=
  utf8.ValidString kv.1 = true ∧ reads_back kv.2.

Lemma member_length k v :
  String.length (json.member (k, json.encode v))
  = String.length (json.quote k) + 1 + String.length (json.encode v).
Proof. unfold json.member. rewrite !length_app. simpl. lia. Qed.

Lemma parse_members_Join (kvs : list (string * value)) :
  kvs ≠ [] → Forall entry_ok kvs →
  ∀ t fuel,
    String.length
      (strings.Join (json.member <$> (prod_map Datatypes.id json.encode <$> kvs)) ",") < fuel →
    json.parse_members fuel
      (strings.Join (json.member <$> (prod_map Datatypes.id json.encode <$> kvs)) ","
       +:+ String "}" t)
    = Ok (kvs, t).
Proof.
  induction kvs as [|[k v] kvs IH]; [done|]. intros _ Hl t fuel Hfuel.
  apply Forall_cons in Hl as [[Hk Hv] Hl]. simpl in Hk, Hv.
  destruct fuel as [|fuel]; [lia|].
  destruct kvs as [|kv' kvs].
  - change (strings.Join (json.member <$> (prod_map Datatypes.id json.encode <$> [(k, v)])) ",")
      with (json.member (k, json.encode v)) in *.
    rewrite member_length in Hfuel.
    unfold json.member, json.quote. cbn [fst snd]. flat.
    rewrite parse_members_S. flat. rewrite string_lit_quote by done. cbn [mbind result_bind].
    change (json.skip_ws (String ":" ?r)) with (String ":" r). cbv beta iota.
    rewrite bool_decide_eq_true_2 by done.
    rewrite Hv by (done || lia). reflexivity.
  - change (json.member <$> (prod_map Datatypes.id json.encode <$> (k, v) :: kv' :: kvs))
      with (json.member (k, json.encode v)
            :: (json.member <$> (prod_map Datatypes.id json.encode <$> kv' :: kvs))) in *.
    rewrite Join_length_cons in Hfuel by done.
    rewrite Join_cons by done.
    rewrite member_length in Hfuel.
    unfold json.member at 1, json.quote. cbn [fst snd]. flat.
    rewrite parse_members_S. flat. rewrite string_lit_quote by done. cbn [mbind result_bind].
    change (json.skip_ws (String ":" ?r)) with (String ":" r). cbv beta iota.
    rewrite bool_decide_eq_true_2 by done.
    rewrite Hv by (done || lia). cbn [mbind result_bind].
    change (json.skip_ws (String "," ?r)) with (String "," r). cbv beta iota.
    rewrite bool_decide_eq_true_2 by done.
    rewrite IH; [done|done|done|].
    change (String.length ",") with 1 in Hfuel. lia.
Qed.

End roundtrip.

Section roundtrip_values.
Context `{Float64} `{!Float64Laws}.

Ltac flat :=
  repeat (rewrite strings.app_assoc || rewrite strings.app_cons
          || rewrite strings.app_nil_l).

(** Inserting the entries of a list without repeated keys, one after the
    other, gives the map of the list. *)
Lemma object_of_NoDup (kvs : list (string * value)) :
  NoDup kvs.*1 → json.object_of kvs = list_to_map kvs.
Proof.
  unfold json.object_of.
  assert (∀ acc : gmap string value, NoDup kvs.*1 →
            foldl (λ m kv, <[kv.1 := kv.2]> m) acc kvs = list_to_map kvs ∪ acc)
    as Hacc.
  { induction kvs as [|[k v] kvs IH]; intros acc Hnd.
    - simpl. by rewrite (left_id_L ∅ (∪)).
    - apply NoDup_cons in Hnd as [Hk Hnd]. cbn [foldl fst snd].
      rewrite IH by done. cbn [list_to_map foldr uncurry fst snd].
      rewrite <-insert_union_r by (by apply not_elem_of_list_to_map_1).
      by rewrite insert_union_l. }
  intros Hnd. by rewrite Hacc, (right_id_L ∅ (∪)).
Qed.

Lemma perm_fmap_inv {A B} (f : A → B) (l1 : list B) (l2 : list A) :
  l1 ≡ₚ f <$> l2 → ∃ l3, l1 = f <$> l3 ∧ l2 ≡ₚ l3.
Proof.
  revert l2. induction l1 as [|y l1 IH]; intros l2 Hp.
  - apply Permutation_nil_l in Hp. symmetry in Hp.
    apply fmap_nil_inv in Hp as ->. by exists [].
  - assert (y ∈ f <$> l2) as Hy by (rewrite <-Hp; left).
    apply list_elem_of_fmap in Hy as (x&->&Hx).
    apply list_elem_of_split in Hx as (la&lb&->).
    rewrite fmap_app, fmap_cons in Hp.
    rewrite <-Permutation_middle in Hp. apply Permutation_cons_inv in Hp.
    rewrite <-fmap_app in Hp. destruct (IH _ Hp) as (l3&->&Hl3).
    exists (x :: l3). split; [done|].
    by rewrite <-Permutation_middle, Hl3.
Qed.

(** The members the encoder writes for a map are the entries of the map,
    in some order. *)
Lemma encode_members (m : gmap string value) :
  ∃ kvs, kvs ≡ₚ map_to_list m
    ∧ json.sort_keys (map_to_list (json.encode <$> m))
      = prod_map Datatypes.id json.encode <$> kvs.
Proof.
  rewrite map_to_list_fmap.
  destruct (perm_fmap_inv (prod_map Datatypes.id json.encode)
              (json.sort_keys (prod_map Datatypes.id json.encode <$> map_to_list m))
              (map_to_list m)) as (kvs&Heq&Hp).
  { apply merge_sort_Permutation. }
  exists kvs. by split.
Qed.

Lemma Join_head (P : ascii → bool) x l sep t :
  json.starts P x = true →
  json.starts P (strings.Join (x :: l) sep +:+ t) = true.
Proof.
  intros Hx. assert (x ≠ "") by (by destruct x).
  destruct l as [|y l].
  - change (strings.Join [x] sep) with x. by rewrite starts_app.
  - rewrite Join_cons by done. rewrite strings.app_assoc. by rewrite starts_app.
Qed.

(** A decoded value is read back from its encoding. *)
Lemma encode_reads_back : ∀ v, decoded v → reads_back v.
Proof.
  induction v as [|b|f|s|l IH|m IH] using value_ind';
    intros Hd t fuel Ht Hfuel;
    pose proof (encode_length _ Hd) as Hlen;
    (destruct fuel as [|fuel]; [lia|]).
  - apply parse_value_null.
  - destruct b; [apply parse_value_true|apply parse_value_false].
  - inversion Hd as [| |? Hf| | |]; subst. cbn [json.encode].
    rewrite parse_value_number.
    + unfold json.number_lit.
      by rewrite FormatFloat_scans, ParseFloat_FormatFloat.
    + destruct (FormatFloat_start f Hf) as [Hs|Hs]; [left|right];
        (rewrite starts_app; [done|]); by destruct (FormatFloat f).
  - inversion Hd as [| | |? Hs| |]; subst. cbn [json.encode].
    unfold json.quote. flat. rewrite parse_value_string.
    by rewrite string_lit_quote.
  - inversion Hd as [| | | |? Hl|]; subst. cbn [json.encode] in *. flat.
    rewrite parse_value_array.
    destruct l as [|x l].
    { reflexivity. }
    assert (Forall reads_back (x :: l)) as Hrb.
    { apply Forall_forall. intros y Hy.
      rewrite Forall_forall in IH, Hl. by apply IH, Hl. }
    assert (json.starts value_start
              (strings.Join (json.encode <$> x :: l) "," +:+ String "]" t) = true)
      as Hstart.
    { rewrite fmap_cons. apply Join_head.
      apply Forall_cons in Hl as [Hx _]. by apply encode_start. }
    rewrite skip_ws_value by done.
    assert (json.starts (json.is_char "]")
              (strings.Join (json.encode <$> x :: l) "," +:+ String "]" t) = false)
      as ->.
    { destruct (strings.Join (json.encode <$> x :: l) "," +:+ String "]" t)
        as [|c r]; [done|]. simpl in *.
      destruct (json.is_char "]" c) eqn:Hc; [|done].
      unfold json.is_char in Hc. apply bool_decide_eq_true in Hc. by subst. }
    rewrite parse_elements_Join; [done|done|done|].
    rewrite !length_app in Hfuel.
    change (String.length "[") with 1 in Hfuel.
    change (String.length "]") with 1 in Hfuel. lia.
  - inversion Hd as [| | | | |? Hm]; subst. cbn [json.encode] in *.
    destruct (encode_members m) as (kvs&Hp&Heq). rewrite Heq in *. flat.
    rewrite parse_value_object.
    destruct kvs as [|kv kvs].
    { apply Permutation_nil_l in Hp. symmetry in Hp.
      apply map_to_list_empty_iff in Hp as ->. reflexivity. }
    assert (Forall entry_ok (kv :: kvs)) as Hrb.
    { apply Forall_forall. intros [k v] Hkv. rewrite Hp in Hkv.
      apply elem_of_map_to_list in Hkv.
      destruct (Hm k v Hkv) as [Hk Hv]. split; [done|]. by apply (IH k v). }
    set (text := strings.Join
                   (json.member <$> (prod_map Datatypes.id json.encode <$> kv :: kvs))
                   ",") in *.
    assert (∃ r, text +:+ String "}" t = String dquote r) as [r Hr].
    { subst text. destruct kv as [k v]. destruct kvs.
      - eexists. cbn. unfold json.member, json.quote. cbn [fst snd]. by flat.
      - rewrite !fmap_cons, Join_cons by done.
        eexists. unfold json.member at 1, json.quote. cbn [fst snd]. by flat. }
    rewrite Hr. 
    change (json.skip_ws (String dquote r)) with (String dquote r).
    change (json.starts (json.is_char "}") (String dquote r)) with false.
    cbv iota. rewrite <-Hr. subst text.
    rewrite parse_members_Join; [|done|done|].
    + cbn [mbind result_bind]. do 3 f_equal.
      rewrite object_of_NoDup.
      * rewrite (list_to_map_proper _ (map_to_list m)); [apply list_to_map_to_list| |done].
        rewrite Hp. apply NoDup_fst_map_to_list.
      * rewrite Hp. apply NoDup_fst_map_to_list.
    + rewrite !length_app in Hfuel.
      change (String.length "{") with 1 in Hfuel.
      change (String.length "}") with 1 in Hfuel. lia.
Qed.

End roundtrip_values.

(** ** What the decoder produces *)

Section parse_decoded.
Context `{Float64}.

Lemma parse_value_S fuel s :
  json.parse_value (S fuel) s
  = match json.skip_ws s with
    | "" => Err SyntaxError
    | String c r as s' =>
        if bool_decide (c = "{"%char) then
          if json.starts (json.is_char "}") (json.skip_ws r)
          then Ok (VMap ∅, strings.drop 1 (json.skip_ws r))
          else '(kvs, r') ← json.parse_members fuel r;
               Ok (VMap (json.object_of kvs), r')
        else if bool_decide (c = "["%char) then
          if json.starts (json.is_char "]") (json.skip_ws r)
          then Ok (VSlice [], strings.drop 1 (json.skip_ws r))
          else '(vs, r') ← json.parse_elements fuel r; Ok (VSlice vs, r')
        else if bool_decide (c = dquote) then
          '(str, r') ← json.string_lit r; Ok (VString str, r')
        else if bool_decide (c = "t"%char) then json.expect "true" (VBool true) s'
        else if bool_decide (c = "f"%char) then json.expect "false" (VBool false) s'
        else if bool_decide (c = "n"%char) then json.expect "null" VNil s'
        else if bool_decide (c = "-"%char) || json.is_digit c then json.number_lit s'
        else Err SyntaxError
    end.
Proof. reflexivity. Qed.

Lemma parse_members_S' fuel s :
  json.parse_members (S fuel) s
  = match json.skip_ws s with
    | String c r =>
        if bool_decide (c = dquote) then
          '(key, r1) ← json.string_lit r;
          match json.skip_ws r1 with
          | String p r2 =>
              if bool_decide (p = ":"%char) then
                '(v, r3) ← json.parse_value fuel r2;
                match json.skip_ws r3 with
                | String p' r4 =>
                    if bool_decide (p' = ","%char) then
                      '(kvs, r5) ← json.parse_members fuel r4;
                      Ok ((key, v) :: kvs, r5)
                    else if bool_decide (p' = "}"%char) then Ok ([(key, v)], r4)
                    else Err SyntaxError
                | "" => Err SyntaxError
                end
              else Err SyntaxError
          | "" => Err SyntaxError
          end
        else Err SyntaxError
    | "" => Err SyntaxError
    end.
Proof. reflexivity. Qed.

Lemma string_lit_valid s str r :
  json.string_lit s = Ok (str, r) → utf8.ValidString str = true.
Proof.
  unfold json.string_lit.
  destruct (json.scan_string s) as [[raw rest]|]; [|done].
  destruct (json.unquote raw) as [str'|] eqn:Hun; [|done].
  intros [= <- <-]. by eapply unquote_valid.
Qed.

Lemma number_lit_decoded s v r : json.number_lit s = Ok (v, r) → decoded v.
Proof.
  unfold json.number_lit.
  destruct (json.scan_number s) as [[lit rest]|] eqn:Hs; [|done].
  destruct (ParseFloat lit) as [f|] eqn:Hf; [|done].
  intros [= <- <-]. constructor. by exists s, lit, rest.
Qed.

Lemma expect_value lit v s v' r : json.expect lit v s = Ok (v', r) → v' = v.
Proof. unfold json.expect. case_match; by intros [= <- <-]. Qed.

Definition entry_decoded (kv : string * value) : Prop :=
  utf8.ValidString kv.1 = true ∧ decoded kv.2.

Lemma object_of_decoded kvs : Forall entry_decoded kvs → decoded (VMap (json.object_of kvs)).
Proof.
  intros Hkvs. constructor. unfold json.object_of.
  assert (∀ acc : gmap string value,
            map_Forall (λ k v, utf8.ValidString k = true ∧ decoded v) acc →
            map_Forall (λ k v, utf8.ValidString k = true ∧ decoded v)
              (foldl (λ m kv, <[kv.1 := kv.2]> m) acc kvs)) as Hacc.
  { induction Hkvs as [|[k v] kvs [Hk Hv] _ IH]; intros acc Hacc; [done|].
    simpl. apply IH. by apply map_Forall_insert_2. }
  apply Hacc, map_Forall_empty.
Qed.

Lemma parse_decoded fuel :
  (∀ s v r, json.parse_value fuel s = Ok (v, r) → decoded v)
  ∧ (∀ s vs r, json.parse_elements fuel s = Ok (vs, r) → Forall decoded vs)
  ∧ (∀ s kvs r, json.parse_members fuel s = Ok (kvs, r) → Forall entry_decoded kvs).
Proof.
  induction fuel as [|fuel (IHv&IHe&IHm)]; [done|]. split_and!.
  - intros s v r. rewrite parse_value_S.
    destruct (json.skip_ws s) as [|c s']; [done|].
    repeat case_match; try done.
    + intros [= <- <-]. constructor. apply map_Forall_empty.
    + destruct (json.parse_members fuel s') as [[kvs r']|] eqn:Hm; [|done].
      intros [= <- <-]. apply object_of_decoded. by eapply IHm.
    + intros [= <- <-]. by do 2 constructor.
    + destruct (json.parse_elements fuel s') as [[vs r']|] eqn:He; [|done].
      intros [= <- <-]. constructor. by eapply IHe.
    + destruct (json.string_lit s') as [[str r']|] eqn:Hs; [|done].
      intros [= <- <-]. constructor. by eapply string_lit_valid.
    + intros ->%expect_value. constructor.
    + intros ->%expect_value. constructor.
    + intros ->%expect_value. constructor.
    + apply number_lit_decoded.
  - intros s vs r. rewrite parse_elements_S.
    destruct (json.parse_value fuel s) as [[v r0]|] eqn:Hv; [|done].
    cbn [mbind result_bind].
    destruct (json.skip_ws r0) as [|p r']; [done|].
    repeat case_match; try done.
    + destruct (json.parse_elements fuel r') as [[vs' r'']|] eqn:He; [|done].
      intros [= <- <-]. constructor; [by eapply IHv|by eapply IHe].
    + intros [= <- <-]. constructor; [by eapply IHv|done].
  - intros s kvs r. rewrite parse_members_S'.
    destruct (json.skip_ws s) as [|c s']; [done|].
    case_match; [|done].
    destruct (json.string_lit s') as [[key r1]|] eqn:Hk; [|done].
    cbn [mbind result_bind].
    destruct (json.skip_ws r1) as [|p r2]; [done|].
    case_match; [|done].
    destruct (json.parse_value fuel r2) as [[v r3]|] eqn:Hv; [|done].
    cbn [mbind result_bind].
    destruct (json.skip_ws r3) as [|p' r4]; [done|].
    repeat case_match; try done.
    + destruct (json.parse_members fuel r4) as [[kvs' r5]|] eqn:Hm; [|done].
      intros [= <- <-]. constructor; [|by eapply IHm].
      split; [by eapply string_lit_valid|by eapply IHv].
    + intros [= <- <-]. constructor; [|done].
      split; [by eapply string_lit_valid|by eapply IHv].
Qed.

Lemma parse_Ok_decoded s v : json.parse s = Ok v → decoded v.
Proof.
  unfold json.parse.
  destruct (json.parse_value (String.length s) s) as [[v' rest]|] eqn:Hv; [|done].
  cbn [mbind result_bind]. case_decide; [|done]. intros [= <-].
  by eapply parse_decoded.
Qed.

End parse_decoded.

Section normal_forms.
Context `{Float64}.

(** [json.Unmarshal] into a map that is nil or empty, as the provider
    calls it. *)
Definition fresh (dst : gomap) : Prop := dst = None ∨ dst = Some ∅.

Lemma Unmarshal_fresh s dst :
  fresh dst →
  json.Unmarshal s dst
  = match json.parse s with
    | Err e => (dst, Some e)
    | Ok VNil => (None, None)
    | Ok (VMap m) => (Some m, None)
    | Ok _ => (dst, Some UnmarshalTypeError)
    end.
Proof.
  intros Hdst. unfold json.Unmarshal.
  destruct (json.parse s) as [[| | | | |m]|e]; try done.
  destruct Hdst as [-> | ->]; simpl; by rewrite (right_id_L ∅ (∪)).
Qed.

Lemma Unmarshal_decoded s dst m :
  fresh dst → json.Unmarshal s dst = (Some m, None) → decoded (VMap m).
Proof.
  intros Hdst. rewrite Unmarshal_fresh by done.
  destruct (json.parse s) as [[| | | | |m0]|e] eqn:Hs; try done.
  intros [= <-]. by eapply parse_Ok_decoded.
Qed.

Context `{!Float64Laws}.

Lemma parse_encode v : decoded v → json.parse (json.encode v) = Ok v.
Proof.
  intros Hv. unfold json.parse.
  rewrite <-(strings.app_nil_r (json.encode v)) at 2.
  rewrite (encode_reads_back v Hv "" _ eq_refl) by done.
  cbn [mbind result_bind]. by rewrite decide_True.
Qed.

(** What [json.Marshal] writes for a decoded map is read back as that
    map. *)
Lemma Unmarshal_Marshal (m : gomap) dst :
  fresh dst →
  (∀ m0, m = Some m0 → decoded (VMap m0)) →
  json.Unmarshal (json.Marshal m).1 dst = (m, None).
Proof.
  intros Hdst Hm. rewrite Unmarshal_fresh by done.
  destruct m as [m0|]; [|done]. cbn [json.Marshal fst].
  by rewrite parse_encode by (by apply Hm).
Qed.

Lemma normalizeDataJSON_Ok s m :
  json.Unmarshal s (Some ∅) = (m, None) →
  normalizeDataJSON s = (json.Marshal m).1.
Proof. intros Hs. unfold normalizeDataJSON. rewrite Hs. by destruct m. Qed.

Lemma normalizeDataJSON_Err s m e :
  json.Unmarshal s (Some ∅) = (m, Some e) → normalizeDataJSON s = "".
Proof. intros Hs. unfold normalizeDataJSON. by rewrite Hs. Qed.

Lemma Unmarshal_normalize s m :
  json.Unmarshal s (Some ∅) = (m, None) →
  json.Unmarshal (normalizeDataJSON s) (Some ∅) = (m, None).
Proof.
  intros Hs. unfold normalizeDataJSON. rewrite Hs.
  assert (json.Unmarshal (json.Marshal m).1 (Some ∅) = (m, None)) as Hm.
  { apply Unmarshal_Marshal; [by right|].
    intros m0 ->. eapply Unmarshal_decoded; [|done]. by right. }
  by destruct m.
Qed.

End normal_forms.

(** The literal instance satisfies what is assumed of [strconv]. *)
Lemma literal_Float64_laws : @Float64Laws literal_Float64.
Proof.
  split.
  - intros f (s&lit&rest&Hs&[= <-]) t Ht.
    by apply (scan_number_stable s lit rest).
  - done.
Qed.

(** ** More on the identifier codec *)

Section identifier_more.

(** The number of occurrences of a byte. *)
Fixpoint count_byte (s : string) (c : ascii) : nat :=
  match s with
  | "" => 0
  | String x s' => (if decide (x = c) then 1 else 0) + count_byte s' c
  end.

Lemma Split_length s sep : length (strings.Split s sep) = S (count_byte s sep).
Proof.
  induction s as [|x s IH]; simpl; [done|].
  case_decide; simpl; [by rewrite IH|].
  destruct (strings.Split s sep); simpl in *; lia.
Qed.

Lemma count_byte_app s t c : count_byte (s +:+ t) c = count_byte s c + count_byte t c.
Proof.
  induction s as [|x s IH]; [done|]. rewrite strings.app_cons. simpl.
  rewrite IH. lia.
Qed.

Lemma Contains_count s c : strings.Contains s c = true ↔ 0 < count_byte s c.
Proof.
  induction s as [|x s IH]; simpl; [split; [done|lia]|].
  case_decide; [split; [lia|done]|]. rewrite IH. simpl. done.
Qed.

Lemma count_buildId a b c :
  count_byte (buildId a b c) pipe
  = 2 + count_byte a pipe + count_byte b pipe + count_byte c pipe.
Proof.
  unfold buildId. rewrite !count_byte_app.
  change (count_byte "|" pipe) with 1. lia.
Qed.

Lemma Join_cons_char x p ps sep :
  strings.Join (String x p :: ps) sep = String x (strings.Join (p :: ps) sep).
Proof. by destruct ps. Qed.

Lemma Join_Split s sep : strings.Join (strings.Split s sep) (String sep "") = s.
Proof.
  induction s as [|x s IH]; simpl; [done|].
  case_decide as Hx.
  - subst x. rewrite Join_cons by apply Split_nonempty. by rewrite IH.
  - destruct (strings.Split s sep) as [|p ps] eqn:Hs;
      [by apply Split_nonempty in Hs|].
    by rewrite Join_cons_char, IH.
Qed.

Lemma Split_parts s sep :
  Forall (λ p, strings.Contains p sep = false) (strings.Split s sep).
Proof.
  induction s as [|x s IH]; simpl; [by repeat constructor|].
  case_decide; [by constructor|].
  destruct (strings.Split s sep) as [|p ps];
    [constructor; [simpl; by rewrite decide_False|done]|].
  apply Forall_cons in IH as [Hp Hps]. constructor; [|done].
  simpl. by rewrite decide_False.
Qed.

End identifier_more.

(** X1: an identifier built from components one of which contains ['|']
    is not parsed back: [splitIdIntoFields] rejects it. *)
Theorem buildId_pipe_rejected (a b c : string) :
  strings.Contains a pipe || strings.Contains b pipe || strings.Contains c pipe = true →
  splitIdIntoFields (buildId a b c) = Err (MalformedIdentifier (buildId a b c)).
Proof.
  intros Hpipe. unfold splitIdIntoFields.
  rewrite decide_True; [done|].
  rewrite Split_length, count_buildId.
  repeat (apply orb_true_iff in Hpipe as [Hpipe|Hpipe]);
    apply Contains_count in Hpipe; lia.
Qed.

Lemma buildId_pipe_rejected_witness :
  splitIdIntoFields (buildId "c|1" "rate-limiting" "abc")
  = Err (MalformedIdentifier (buildId "c|1" "rate-limiting" "abc")).
Proof. apply buildId_pipe_rejected. reflexivity. Defined.

(** X2: an identifier that [splitIdIntoFields] accepts is the one
    [buildId] makes of the fields it returns, and none of these fields
    contains ['|']. *)
Theorem buildId_splitIdIntoFields (s : string) (f : idFields) :
  splitIdIntoFields s = Ok f →
  buildId (consumerId f) (pluginName f) (id f) = s
  ∧ strings.Contains (consumerId f) pipe = false
  ∧ strings.Contains (pluginName f) pipe = false
  ∧ strings.Contains (id f) pipe = false.
Proof.
  unfold splitIdIntoFields. case_decide as Hlen; [done|]. intros [= <-].
  pose proof (Join_Split s pipe) as Hjoin.
  pose proof (Split_parts s pipe) as Hparts.
  assert (length (strings.Split s pipe) = 3) as Hlen3.
  { by destruct (decide (length (strings.Split s pipe) = 3)). }
  destruct (strings.Split s pipe) as [|f0 [|f1 [|f2 [|??]]]]; try done.
  apply Forall_cons in Hparts as [? [? [? _]%Forall_cons]%Forall_cons].
  by split_and!.
Qed.

Lemma buildId_splitIdIntoFields_witness :
  buildId "c1" "rate-limiting" "abc" = "c1|rate-limiting|abc"
  ∧ strings.Contains "c1" pipe = false
  ∧ strings.Contains "rate-limiting" pipe = false
  ∧ strings.Contains "abc" pipe = false.
Proof.
  apply (buildId_splitIdIntoFields "c1|rate-limiting|abc"
           (mkIdFields "c1" "rate-limiting" "abc")).
  reflexivity.
Defined.

(** ** More on the normaliser *)

(** C8: on a text that the validator accepts the normaliser is
    idempotent: normalising its normal form gives that normal form again.
    [Float64Laws] is what is assumed of [strconv]: the literal written for
    a float that was read is read back as that float. *)
Theorem normalizeDataJSON_validated_idempotent `{Float64} (x k : string) :
  Float64Laws →
  validateDataJSON x k = ([], []) →
  normalizeDataJSON (normalizeDataJSON x) = normalizeDataJSON x.
Proof.
  intros Hlaws Hvalid.
  destruct (json.Unmarshal x (Some ∅)) as [m err] eqn:Hx.
  assert (err = None) as ->.
  { unfold validateDataJSON in Hvalid. rewrite Hx in Hvalid.
    by destruct err. }
  pose proof (Unmarshal_normalize _ _ Hx) as Hn.
  rewrite (normalizeDataJSON_Ok _ _ Hn). by rewrite (normalizeDataJSON_Ok _ _ Hx).
Qed.

Lemma normalizeDataJSON_validated_idempotent_witness :
  validateDataJSON (js " { 'b' : [1.50, '<'],  'a' : {'k': null},  'b' : 2 } ") "config_json"
  = ([], [])
  ∧ normalizeDataJSON (js " { 'b' : [1.50, '<'],  'a' : {'k': null},  'b' : 2 } ")
    = js "{'a':{'k':null},'b':2}"
  ∧ normalizeDataJSON (js "{'a':{'k':null},'b':2}") = js "{'a':{'k':null},'b':2}".
Proof.
  assert (normalizeDataJSON (js " { 'b' : [1.50, '<'],  'a' : {'k': null},  'b' : 2 } ")
          = js "{'a':{'k':null},'b':2}") as Hnormal by (vm_compute; reflexivity).
  split_and!; [vm_compute; reflexivity|exact Hnormal|].
  rewrite <-Hnormal.
  apply (normalizeDataJSON_validated_idempotent _ "config_json");
    [apply literal_Float64_laws|vm_compute; reflexivity].
Defined.

(** X3: [normalizeDataJSON] is idempotent on every text, accepted by the
    validator or not: normalising what it returns changes nothing. *)
Theorem normalizeDataJSON_idempotent `{Float64} (x : string) :
  Float64Laws →
  normalizeDataJSON (normalizeDataJSON x) = normalizeDataJSON x.
Proof.
  intros Hlaws.
  destruct (json.Unmarshal x (Some ∅)) as [m [e|]] eqn:Hx.
  - rewrite (normalizeDataJSON_Err _ _ _ Hx). reflexivity.
  - pose proof (Unmarshal_normalize _ _ Hx) as Hn.
    rewrite (normalizeDataJSON_Ok _ _ Hn). by rewrite (normalizeDataJSON_Ok _ _ Hx).
Qed.

Lemma normalizeDataJSON_idempotent_witness :
  normalizeDataJSON (normalizeDataJSON (js " { 'b' : [1, 2, '<'],  'a' : {'k': null} } "))
  = normalizeDataJSON (js " { 'b' : [1, 2, '<'],  'a' : {'k': null} } ").
Proof. apply normalizeDataJSON_idempotent. apply literal_Float64_laws. Defined.

(** X4: normalising keeps the meaning: a text that [json.Unmarshal]
    accepts and its normal form are decoded to the same map, so the normal
    form passes the validator as well. *)
Theorem normalizeDataJSON_same_map `{Float64} (x : string) (m : gomap) :
  Float64Laws →
  json.Unmarshal x (Some ∅) = (m, None) →
  json.Unmarshal (normalizeDataJSON x) (Some ∅) = (m, None)
  ∧ ∀ k, validateDataJSON (normalizeDataJSON x) k = ([], []).
Proof.
  intros Hlaws Hx. pose proof (Unmarshal_normalize _ _ Hx) as Hn.
  split; [done|]. intros k. unfold validateDataJSON. by rewrite Hn.
Qed.

Lemma normalizeDataJSON_same_map_witness :
  json.Unmarshal (normalizeDataJSON (js " { 'b' : true,  'a' : 'x' } ")) (Some ∅)
  = (Some {[ "a" := VString "x"; "b" := VBool true ]}, None)
  ∧ ∀ k, validateDataJSON (normalizeDataJSON (js " { 'b' : true,  'a' : 'x' } ")) k
         = ([], []).
Proof.
  apply normalizeDataJSON_same_map; [apply literal_Float64_laws|].
  vm_compute. reflexivity.
Defined.

(** X5: the normal form is canonical: two texts that [json.Unmarshal]
    accepts have the same normal form exactly when they are decoded to the
    same map. *)
Theorem normalizeDataJSON_canonical `{Float64} (x y : string) (mx my : gomap) :
  Float64Laws →
  json.Unmarshal x (Some ∅) = (mx, None) →
  json.Unmarshal y (Some ∅) = (my, None) →
  normalizeDataJSON x = normalizeDataJSON y ↔ mx = my.
Proof.
  intros Hlaws Hx Hy. split.
  - intros Hxy.
    pose proof (Unmarshal_normalize _ _ Hx) as Hnx.
    pose proof (Unmarshal_normalize _ _ Hy) as Hny.
    rewrite Hxy in Hnx. congruence.
  - intros <-. by rewrite (normalizeDataJSON_Ok _ _ Hx), (normalizeDataJSON_Ok _ _ Hy).
Qed.

Lemma normalizeDataJSON_canonical_witness :
  normalizeDataJSON (js "{'a':true,'b':null}")
  = normalizeDataJSON (js " { 'b' : null, 'a' : true, 'b' : null } ")
  ↔ Some ({[ "a" := VBool true; "b" := VNil ]} : gmap string value)
    = Some {[ "a" := VBool true; "b" := VNil ]}.
Proof.
  apply normalizeDataJSON_canonical;
    [apply literal_Float64_laws|vm_compute; reflexivity..].
Defined.

(** X6: the validator never returns a warning; it returns no error when
    the text is one JSON value that is an object or [null], and exactly one
    error otherwise. *)
Theorem validateDataJSON_outcomes `{Float64} (s k : string) :
  (validateDataJSON s k).1 = []
  ∧ ((json.parse s = Ok VNil ∨ ∃ m, json.parse s = Ok (VMap m)) →
       (validateDataJSON s k).2 = [])
  ∧ (json.parse s ≠ Ok VNil → (∀ m, json.parse s ≠ Ok (VMap m)) →
       ∃ e, (validateDataJSON s k).2 = [e]).
Proof.
  unfold validateDataJSON, json.Unmarshal.
  destruct (json.parse s) as [[| | | | |m]|e]; simpl; (split; [done|split]).
  all: try (intros [?|[? ?]]; by simplify_eq).
  all: try (intros _ _; by eexists).
  all: try done.
  intros _ Hm. by destruct (Hm m).
Qed.

Lemma validateDataJSON_outcomes_witness :
  (validateDataJSON (js "[{'a':1}]") "config_json").1 = []
  ∧ ∃ e, (validateDataJSON (js "[{'a':1}]") "config_json").2 = [e].
Proof.
  destruct (validateDataJSON_outcomes (js "[{'a':1}]") "config_json")
    as (Hw&_&He).
  split; [done|]. apply He; [done|]. by intros m.
Defined.

(** ** More on the drift filter *)

Section drift_more.
Context `{Float64}.

Lemma stripped_unique E R (F1 F2 : gmap string value) :
  stripped E R F1 → stripped E R F2 → F1 = F2.
Proof. intros H1 H2. apply map_eq. intros k. by rewrite H1, H2. Qed.

Lemma strip_loop_order (range1 range2 : gmap string value → list (string * value)) E R :
  (∀ m, range1 m ≡ₚ map_to_list m) → (∀ m, range2 m ≡ₚ map_to_list m) →
  strip_loop E (range_gomap range1 R) = strip_loop E (range_gomap range2 R).
Proof.
  intros H1 H2. apply (stripped_unique E R); by apply strip_loop_stripped.
Qed.

Lemma stripped_decoded E (R : gomap) F :
  stripped E R F →
  (∀ m0, R = Some m0 → decoded (VMap m0)) →
  decoded (VMap F).
Proof.
  intros HF HR. constructor. intros k v Hk. rewrite HF in Hk.
  case_bool_decide; [done|]. unfold entries_of in Hk.
  destruct R as [m0|]; simpl in Hk; [|by rewrite lookup_empty in Hk].
  specialize (HR m0 eq_refl). inversion HR as [| | | | |? Hm0]; subst.
  by apply (Hm0 k v).
Qed.

(** A map without computed keys is left as it is. *)
Lemma stripped_again E R F : stripped E R F → stripped E (Some F) F.
Proof.
  intros HF k. simpl. case_bool_decide as Hk; [|done].
  rewrite HF. by rewrite bool_decide_eq_true_2.
Qed.

Lemma encode_empty : json.encode (VMap ∅) = "{}".
Proof. reflexivity. Qed.

Context `{!Float64Laws}.
Variable range : gmap string value → list (string * value).
Hypothesis range_perm : ∀ m, range m ≡ₚ map_to_list m.

Lemma strip_Unmarshal E (R : gomap) :
  (∀ m0, R = Some m0 → decoded (VMap m0)) →
  json.Unmarshal (json.encode (VMap (strip_loop E (range_gomap range R)))) (Some ∅)
  = (Some (strip_loop E (range_gomap range R)), None).
Proof.
  intros HR.
  apply (Unmarshal_Marshal (Some (strip_loop E (range_gomap range R)))); [by right|].
  intros m0 [= <-]. apply (stripped_decoded E R); [|done].
  by apply strip_loop_stripped.
Qed.

Lemma plugin_filter_normal E (R : gomap) :
  (∀ m0, R = Some m0 → decoded (VMap m0)) →
  normalizeDataJSON (pluginConfigJsonToString range E R)
  = pluginConfigJsonToString range E R.
Proof. intros HR. exact (normalizeDataJSON_Ok _ _ (strip_Unmarshal E R HR)). Qed.

Lemma consumer_filter_out E body out :
  consumerPluginConfigJsonToString range E body = Ok out →
  ∃ R, json.Unmarshal body (Some ∅) = (R, None)
    ∧ (∀ m0, R = Some m0 → decoded (VMap m0))
    ∧ out = json.encode (VMap (strip_loop E (range_gomap range R))).
Proof.
  unfold consumerPluginConfigJsonToString.
  destruct (json.Unmarshal body (Some ∅)) as [R [e|]] eqn:HR; [done|].
  intros [= <-]. exists R. split_and!; [done| |done].
  intros m1 ->. eapply Unmarshal_decoded; [|done]. by right.
Qed.

Lemma consumer_filter_normal E body out :
  consumerPluginConfigJsonToString range E body = Ok out →
  normalizeDataJSON out = out
  ∧ consumerPluginConfigJsonToString range E out = Ok out.
Proof.
  intros (R&HR&Hdec&->)%consumer_filter_out.
  pose proof (strip_Unmarshal E R Hdec) as HU.
  split; [exact (normalizeDataJSON_Ok _ _ HU)|].
  unfold consumerPluginConfigJsonToString. rewrite HU.
  set (F := strip_loop E (range_gomap range R)).
  change (Ok (json.encode (VMap (strip_loop E (range_gomap range (Some F)))))
          = Ok (json.encode (VMap F))).
  do 3 f_equal. apply (stripped_unique E (Some F)).
  - by apply strip_loop_stripped.
  - eapply stripped_again. by apply (strip_loop_stripped range range_perm E R).
Qed.

End drift_more.

(** X7: what both filters return does not depend on the order in which
    the [range] visits the entries of the map. *)
Theorem drift_filter_order_independent `{Float64}
    (range1 range2 : gmap string value → list (string * value))
    (E : list string) :
  (∀ m, range1 m ≡ₚ map_to_list m) →
  (∀ m, range2 m ≡ₚ map_to_list m) →
  (∀ R, pluginConfigJsonToString range1 E R = pluginConfigJsonToString range2 E R)
  ∧ (∀ body, consumerPluginConfigJsonToString range1 E body
             = consumerPluginConfigJsonToString range2 E body).
Proof.
  intros H1 H2. split.
  - intros R. unfold pluginConfigJsonToString.
    by rewrite (strip_loop_order range1 range2).
  - intros body. unfold consumerPluginConfigJsonToString.
    destruct (json.Unmarshal body (Some ∅)) as [R [e|]]; [done|].
    by rewrite (strip_loop_order range1 range2).
Qed.

Lemma drift_filter_order_independent_witness :
  (∀ R, pluginConfigJsonToString map_to_list ["id"] R
        = pluginConfigJsonToString (λ m, reverse (map_to_list m)) ["id"] R)
  ∧ (∀ body, consumerPluginConfigJsonToString map_to_list ["id"] body
             = consumerPluginConfigJsonToString (λ m, reverse (map_to_list m))
                 ["id"] body).
Proof.
  apply drift_filter_order_independent.
  - reflexivity.
  - intros m. apply reverse_Permutation.
Defined.

(** X8: decoding what the scoped filter returns gives the object of the
    body without its computed properties: no key of the registry is left,
    and every other key has the value the body gives it. *)
Theorem consumer_filter_decodes `{Float64}
    (range : gmap string value → list (string * value))
    (E : list string) (body out : string) :
  Float64Laws →
  (∀ m, range m ≡ₚ map_to_list m) →
  consumerPluginConfigJsonToString range E body = Ok out →
  ∃ R F, json.Unmarshal body (Some ∅) = (R, None)
    ∧ stripped E R F
    ∧ json.Unmarshal out (Some ∅) = (Some F, None).
Proof.
  intros Hlaws Hperm (R&HR&Hdec&->)%consumer_filter_out.
  exists R, (strip_loop E (range_gomap range R)). split_and!; [done| |].
  - by apply strip_loop_stripped.
  - by apply strip_Unmarshal.
Qed.

Lemma consumer_filter_decodes_witness :
  ∃ R F, json.Unmarshal (js "{'a':true,'id':'x','created_at':null}") (Some ∅)
         = (R, None)
    ∧ stripped ["id"; "created_at"] R F
    ∧ json.Unmarshal (js "{'a':true}") (Some ∅) = (Some F, None).
Proof.
  apply (consumer_filter_decodes map_to_list).
  - apply literal_Float64_laws.
  - reflexivity.
  - vm_compute. reflexivity.
Defined.

(** X9: what the scoped filter returns is a normal form and is left alone
    by the filter: [normalizeDataJSON] returns it unchanged, and so does the
    filter applied to it. *)
Theorem consumer_filter_fixed_point `{Float64}
    (range : gmap string value → list (string * value))
    (E : list string) (body out : string) :
  Float64Laws →
  (∀ m, range m ≡ₚ map_to_list m) →
  consumerPluginConfigJsonToString range E body = Ok out →
  normalizeDataJSON out = out
  ∧ consumerPluginConfigJsonToString range E out = Ok out.
Proof. intros Hlaws Hperm. by apply consumer_filter_normal. Qed.

Lemma consumer_filter_fixed_point_witness :
  normalizeDataJSON (js "{'a':true}") = js "{'a':true}"
  ∧ consumerPluginConfigJsonToString map_to_list ["id"; "created_at"] (js "{'a':true}")
    = Ok (js "{'a':true}").
Proof.
  apply (consumer_filter_fixed_point map_to_list ["id"; "created_at"]
           (js "{'a':true,'id':'x','created_at':null}")).
  - apply literal_Float64_laws.
  - reflexivity.
  - vm_compute. reflexivity.
Defined.

(** X10: what the primary filter returns for a configuration that was
    decoded from JSON is a normal form: [normalizeDataJSON] returns it
    unchanged. *)
Theorem plugin_filter_normal_form `{Float64}
    (range : gmap string value → list (string * value))
    (E : list string) (R : gomap) :
  Float64Laws →
  (∀ m, range m ≡ₚ map_to_list m) →
  (∀ m0, R = Some m0 → decoded (VMap m0)) →
  normalizeDataJSON (pluginConfigJsonToString range E R)
  = pluginConfigJsonToString range E R.
Proof. intros Hlaws Hperm. by apply plugin_filter_normal. Qed.

Lemma plugin_filter_normal_form_witness :
  normalizeDataJSON (pluginConfigJsonToString map_to_list ["id"; "created_at"]
                       (Some remote_config))
  = pluginConfigJsonToString map_to_list ["id"; "created_at"] (Some remote_config).
Proof.
  apply plugin_filter_normal_form.
  - apply literal_Float64_laws.
  - reflexivity.
  - intros m0 [= <-]. constructor. unfold remote_config.
    intros k v Hk. split; [|].
    + apply lookup_insert_Some in Hk as [[<- _]|[_ Hk]]; [done|].
      apply lookup_insert_Some in Hk as [[<- _]|[_ Hk]]; [done|].
      apply lookup_singleton_Some in Hk as [<- _]. done.
    + apply lookup_insert_Some in Hk as [[_ <-]|[_ Hk]]; [constructor|].
      apply lookup_insert_Some in Hk as [[_ <-]|[_ Hk]]; [by constructor|].
      apply lookup_singleton_Some in Hk as [_ <-]. constructor.
Defined.

(** X11: when the remote configuration is nil, or has computed properties
    only, the primary filter returns the empty object. *)
Theorem plugin_filter_all_computed `{Float64}
    (range : gmap string value → list (string * value))
    (E : list string) (R : gomap) :
  (∀ m, range m ≡ₚ map_to_list m) →
  (∀ k v, entries_of R !! k = Some v → k ∈ E) →
  pluginConfigJsonToString range E R = "{}".
Proof.
  intros Hperm HE. unfold pluginConfigJsonToString.
  pose proof (strip_loop_stripped range Hperm E R) as HF.
  assert (strip_loop E (range_gomap range R) = ∅) as ->; [|done].
  apply map_eq. intros k. rewrite HF, lookup_empty.
  case_bool_decide as Hk; [done|].
  destruct (entries_of R !! k) as [v|] eqn:Hv; [|done].
  destruct Hk. by apply (HE k v).
Qed.

Lemma plugin_filter_all_computed_witness :
  pluginConfigJsonToString map_to_list ["id"; "created_at"]
    (Some {[ "id" := VString "x" ]})
  = "{}".
Proof.
  apply plugin_filter_all_computed; [reflexivity|].
  intros k v Hk. simpl in Hk. apply lookup_singleton_Some in Hk as [<- _].
  apply list_elem_of_here.
Defined.

(** ** More on the encoders *)

Section encoders_more.
Context `{Float64}.

Definition not_a_string (v : value) : Prop := ∀ s, v ≠ VString s.

Lemma write_pairs_panics mapSize entries : ∀ position buffer,
  Exists (λ kv, not_a_string kv.2) entries →
  write_pairs mapSize position entries buffer = Panics.
Proof.
  induction entries as [|[key val] entries IH]; intros position buffer Hex.
  - by apply Exists_nil in Hex.
  - cbn [write_pairs]. destruct val as [| | |v| |]; try done.
    apply Exists_cons in Hex as [Hv|Hex]; [by destruct (Hv v)|].
    by apply IH.
Qed.

End encoders_more.

(** X12: with the blob empty, the scoped encoder panics when some value
    of the mapping is not a string, in whatever order the entries are
    visited. *)
Theorem generatePluginConfig_panics `{Float64}
    (range : gmap string value → list (string * value))
    (M : gmap string value) (k : string) (v : value) :
  range M ≡ₚ map_to_list M →
  M !! k = Some v → (∀ s, v ≠ VString s) →
  generatePluginConfig range (Some M) "" = Panics.
Proof.
  intros Hperm Hk Hv. unfold generatePluginConfig.
  rewrite decide_False by (by intros []).
  rewrite write_pairs_panics; [done|].
  apply Exists_exists. exists (k, v). split; [|done].
  rewrite Hperm. by apply elem_of_map_to_list.
Qed.

Lemma generatePluginConfig_panics_witness :
  generatePluginConfig map_to_list
    (Some {[ "minute" := VString "10"; "policy" := VBool true ]}) ""
  = Panics.
Proof.
  apply (generatePluginConfig_panics _ _ "policy" (VBool true)).
  - reflexivity.
  - reflexivity.
  - done.
Defined.

(** X13: the primary encoder returns an error exactly when the mapping
    is empty or absent and the blob is non-empty and refused by
    [json.Unmarshal]; error or not, the name and the scope references of
    the request are the attributes as read. *)
Theorem createKongPluginRequest_errors `{Float64} (d : ResourceData) :
  ((createKongPluginRequestFromResourceData d).2 ≠ None
   ↔ GetOkMap d "config" = None
     ∧ ∃ J, GetOkString d "config_json" = Some J
            ∧ (json.Unmarshal J None).2 ≠ None)
  ∧ reqName (createKongPluginRequestFromResourceData d).1
    = readStringFromResource d "name"
  ∧ reqApiId (createKongPluginRequestFromResourceData d).1
    = readStringFromResource d "api_id"
  ∧ reqConsumerId (createKongPluginRequestFromResourceData d).1
    = readStringFromResource d "consumer_id"
  ∧ reqServiceId (createKongPluginRequestFromResourceData d).1
    = readStringFromResource d "service_id"
  ∧ reqRouteId (createKongPluginRequestFromResourceData d).1
    = readStringFromResource d "route_id".
Proof.
  unfold createKongPluginRequestFromResourceData, readMapFromResource.
  cbn [reqConfig].
  destruct (GetOkMap d "config") as [M|].
  { split_and!; try done. split; [done|]. by intros [? _]. }
  destruct (GetOkString d "config_json") as [J|].
  - destruct (json.Unmarshal J None) as [cfg [err|]] eqn:HJ; split_and!; try done.
    + split; [|done]. intros _. split; [done|]. exists J. by rewrite HJ.
    + split; [done|]. intros [_ (J'&[= <-]&HJ')]. by rewrite HJ in HJ'.
  - split_and!; try done. split; [done|]. by intros [_ (?&?&_)].
Qed.

Definition unparsable_blob : ResourceData :=
  mkResourceData "" {[ "name" := "acl"; "config_json" := js "{'x':" ]} ∅.

Lemma createKongPluginRequest_errors_witness :
  (createKongPluginRequestFromResourceData unparsable_blob).2 ≠ None
  ∧ reqName (createKongPluginRequestFromResourceData unparsable_blob).1 = "acl".
Proof.
  destruct (createKongPluginRequest_errors unparsable_blob) as (Herr&Hname&_).
  split; [|exact Hname].
  apply Herr. split; [reflexivity|].
  exists (js "{'x':"). split; [reflexivity|]. by vm_compute.
Defined.

(** ** More on the operations *)

Section operations_more.
Context `{Float64}.
Variable range : gmap string value → list (string * value).
Variable computedPluginProperties : list string.
Variable meta : KongAdminClient.

Lemma splitIdIntoFields_Err s :
  length (strings.Split s pipe) ≠ 3 →
  splitIdIntoFields s = Err (MalformedIdentifier s).
Proof. intros Hlen. unfold splitIdIntoFields. by rewrite decide_True. Qed.

Lemma splitIdIntoFields_build a b c :
  strings.Contains a pipe = false → strings.Contains b pipe = false →
  strings.Contains c pipe = false →
  splitIdIntoFields (buildId a b c) = Ok (mkIdFields a b c).
Proof.
  intros Ha Hb Hc. unfold splitIdIntoFields. by rewrite Split_buildId.
Qed.

(** The scoped read, once the identity is parsed: one call, with the
    fields of the identity, and the identity is left as it is. *)
Lemma scoped_read_calls w f :
  splitIdIntoFields (Id (data w)) = Ok f →
  ∃ e' w', resourceKongConsumerPluginConfigRead range computedPluginProperties meta w
           = (e', w')
    ∧ calls w' = calls w ++ [CallGetPluginConfig (consumerId f) (pluginName f) (id f)]
    ∧ Id (data w') = Id (data w)
    ∧ rdMaps (data w') = rdMaps (data w).
Proof.
  intros Hf. unfold resourceKongConsumerPluginConfigRead. rewrite Hf.
  destruct (GetPluginConfig meta _ _ _) as [[c|]|err];
    [|by do 2 eexists..].
  destruct (consumerPluginConfigJsonToString _ _ _); by do 2 eexists.
Qed.

End operations_more.

(** X14: the scoped read of a resource whose identity does not split
    into three parts fails with [MalformedIdentifier] before any remote
    call, and changes nothing. *)
Theorem scoped_read_malformed `{Float64}
    (range : gmap string value → list (string * value))
    (computedPluginProperties : list string) (meta : KongAdminClient) (w : world) :
  length (strings.Split (Id (data w)) pipe) ≠ 3 →
  resourceKongConsumerPluginConfigRead range computedPluginProperties meta w
  = (Some (MalformedIdentifier (Id (data w))), w).
Proof.
  intros Hlen. unfold resourceKongConsumerPluginConfigRead.
  by rewrite splitIdIntoFields_Err.
Qed.

Definition imported_bad : world :=
  mkWorld (mkResourceData "c1|rate-limiting" ∅ ∅) [].

Lemma scoped_read_malformed_witness :
  resourceKongConsumerPluginConfigRead map_to_list ["id"] empty_remote imported_bad
  = (Some (MalformedIdentifier "c1|rate-limiting"), imported_bad).
Proof. apply scoped_read_malformed. by vm_compute. Defined.

(** X15: when the scoped read returns no error, it has made the one call
    [GetPluginConfig] with the three parts of the identity, has kept the
    identity and the map attributes, and [config_json] holds a normal
    form: [normalizeDataJSON], the state function of that attribute,
    returns it unchanged. *)
Theorem scoped_read_stores_normal_form `{Float64}
    (range : gmap string value → list (string * value))
    (computedPluginProperties : list string) (meta : KongAdminClient)
    (w w' : world) :
  Float64Laws →
  (∀ m, range m ≡ₚ map_to_list m) →
  resourceKongConsumerPluginConfigRead range computedPluginProperties meta w
    = (None, w') →
  ∃ f upstreamJson,
    splitIdIntoFields (Id (data w)) = Ok f
    ∧ calls w' = calls w ++ [CallGetPluginConfig (consumerId f) (pluginName f) (id f)]
    ∧ Id (data w') = Id (data w)
    ∧ rdMaps (data w') = rdMaps (data w)
    ∧ rdStrings (data w') !! "config_json" = Some upstreamJson
    ∧ normalizeDataJSON upstreamJson = upstreamJson.
Proof.
  intros Hlaws Hperm. unfold resourceKongConsumerPluginConfigRead.
  destruct (splitIdIntoFields (Id (data w))) as [f|e]; [|done].
  destruct (GetPluginConfig meta _ _ _) as [[c|]|err]; [|done..].
  destruct (consumerPluginConfigJsonToString _ _ _) as [j|e] eqn:Hj; [|done].
  intros [= <-]. exists f, j. split_and!; try done.
  - apply lookup_insert_eq.
  - by destruct (consumer_filter_normal range Hperm computedPluginProperties
                   (cpcBody c) j Hj).
Qed.

Definition stored : world :=
  mkWorld (mkResourceData "c1|rate-limiting|abc" ∅ ∅) [].

Definition remote_with (body : string) : KongAdminClient :=
  mkKongAdminClient (λ _, Ok None)
    (λ _ _ _, Ok (Some (mkConsumerPluginConfig "abc" body)))
    (λ _ _ _, Ok (Some (mkConsumerPluginConfig "abc" body))).

Definition stored_read : world :=
  mkWorld
    (mkResourceData "c1|rate-limiting|abc"
       (<["config_json" := js "{'minute':true}"]>
          (<["plugin_name" := "rate-limiting"]> (<["consumer_id" := "c1"]> ∅)))
       ∅)
    [CallGetPluginConfig "c1" "rate-limiting" "abc"].

Lemma scoped_read_stores_normal_form_witness :
  ∃ f upstreamJson,
    splitIdIntoFields (Id (data stored)) = Ok f
    ∧ calls stored_read
      = calls stored ++ [CallGetPluginConfig (consumerId f) (pluginName f) (id f)]
    ∧ Id (data stored_read) = Id (data stored)
    ∧ rdMaps (data stored_read) = rdMaps (data stored)
    ∧ rdStrings (data stored_read) !! "config_json" = Some upstreamJson
    ∧ normalizeDataJSON upstreamJson = upstreamJson.
Proof.
  apply (scoped_read_stores_normal_form map_to_list ["id"; "created_at"]
           (remote_with (js "{'minute':true,'id':'abc'}")) stored stored_read).
  - apply literal_Float64_laws.
  - reflexivity.
  - vm_compute. reflexivity.
Defined.

(** X16: when the body the remote returns is refused by [json.Unmarshal],
    the scoped read returns an error, yet [consumer_id] and [plugin_name]
    have been overwritten from the identity by then; [config_json] is not
    touched. *)
Theorem scoped_read_bad_body `{Float64}
    (range : gmap string value → list (string * value))
    (computedPluginProperties : list string) (meta : KongAdminClient)
    (w : world) (f : idFields) (c : ConsumerPluginConfig) (err : error) :
  splitIdIntoFields (Id (data w)) = Ok f →
  GetPluginConfig meta (consumerId f) (pluginName f) (id f) = Ok (Some c) →
  consumerPluginConfigJsonToString range computedPluginProperties (cpcBody c)
    = Err err →
  ∃ w', resourceKongConsumerPluginConfigRead range computedPluginProperties meta w
        = (Some (Errorf ("could not read in consumer plugin config body: "
                         +:+ Id (data w) +:+ " error: ") (Some err)), w')
    ∧ rdStrings (data w')
      = <["plugin_name" := pluginName f]>
          (<["consumer_id" := consumerId f]> (rdStrings (data w)))
    ∧ Id (data w') = Id (data w).
Proof.
  intros Hf Hget Hjson. unfold resourceKongConsumerPluginConfigRead.
  rewrite Hf, Hget, Hjson. by eexists.
Qed.

Lemma scoped_read_bad_body_witness :
  ∃ w', resourceKongConsumerPluginConfigRead map_to_list ["id"]
          (remote_with "not json") stored
        = (Some (Errorf ("could not read in consumer plugin config body: "
                         +:+ Id (data stored) +:+ " error: ") (Some SyntaxError)), w')
    ∧ rdStrings (data w')
      = <["plugin_name" := "rate-limiting"]> (<["consumer_id" := "c1"]> ∅)
    ∧ Id (data w') = Id (data stored).
Proof.
  apply (scoped_read_bad_body map_to_list ["id"] (remote_with "not json") stored
           (mkIdFields "c1" "rate-limiting" "abc")
           (mkConsumerPluginConfig "abc" "not json")).
  - reflexivity.
  - reflexivity.
  - vm_compute. reflexivity.
Defined.

(** X17: whatever the remote answers, the primary read makes exactly
    one call, [GetById] with the current identity, and never writes a map
    attribute; when the remote reports an error, the read returns it
    wrapped and leaves the resource data as it was. *)
Theorem primary_read_one_call `{Float64}
    (range : gmap string value → list (string * value))
    (computedPluginProperties : list string) (meta : KongAdminClient) (w : world) :
  ∃ e' w', resourceKongPluginRead range computedPluginProperties meta w = (e', w')
    ∧ calls w' = calls w ++ [CallGetById (Id (data w))]
    ∧ rdMaps (data w') = rdMaps (data w)
    ∧ ∀ err, GetById meta (Id (data w)) = Err err →
        e' = Some (Errorf "could not find kong plugin: " (Some err))
        ∧ data w' = data w.
Proof.
  unfold resourceKongPluginRead, called. cbn [data].
  destruct (GetById meta (Id (data w))) as [[p|]|err]; do 2 eexists;
    (split_and!; [done..|]); intros ? [=]; by subst.
Qed.

(** X18: when the remote has the plugin, with a configuration decoded
    from JSON, the primary read returns no error, keeps the identity, sets
    [name] and the four scope references from the plugin, and stores in
    [config_json] the filtered configuration, which is a normal form:
    [normalizeDataJSON] returns it unchanged. *)
Theorem primary_read_found `{Float64}
    (range : gmap string value → list (string * value))
    (computedPluginProperties : list string) (meta : KongAdminClient)
    (w : world) (p : Plugin) :
  Float64Laws →
  (∀ m, range m ≡ₚ map_to_list m) →
  (∀ m0, plugConfig p = Some m0 → decoded (VMap m0)) →
  GetById meta (Id (data w)) = Ok (Some p) →
  ∃ w' upstreamJson,
    resourceKongPluginRead range computedPluginProperties meta w = (None, w')
    ∧ Id (data w') = Id (data w)
    ∧ rdStrings (data w')
      = <["config_json" := upstreamJson]>
          (<["consumer_id" := plugConsumerId p]>
             (<["route_id" := plugRouteId p]>
                (<["service_id" := plugServiceId p]>
                   (<["api_id" := plugApiId p]>
                      (<["name" := plugName p]> (rdStrings (data w)))))))
    ∧ upstreamJson
      = pluginConfigJsonToString range computedPluginProperties (plugConfig p)
    ∧ normalizeDataJSON upstreamJson = upstreamJson.
Proof.
  intros Hlaws Hperm Hdec Hget. unfold resourceKongPluginRead, called. cbn [data].
  rewrite Hget. do 2 eexists. split_and!; [done..|].
  by apply plugin_filter_normal.
Qed.

Definition remote_plugin : KongAdminClient :=
  mkKongAdminClient
    (λ _, Ok (Some (mkPlugin "p1" "acl" "" "" "s1" "" None)))
    (λ _ _ _, Ok None) (λ _ _ _, Ok None).

Definition known : world := mkWorld (mkResourceData "p1" ∅ ∅) [].

Lemma primary_read_found_witness :
  ∃ w' upstreamJson,
    resourceKongPluginRead map_to_list ["id"; "created_at"] remote_plugin known
    = (None, w')
    ∧ Id (data w') = Id (data known)
    ∧ rdStrings (data w')
      = <["config_json" := upstreamJson]>
          (<["consumer_id" := ""]>
             (<["route_id" := ""]>
                (<["service_id" := "s1"]>
                   (<["api_id" := ""]> (<["name" := "acl"]> ∅)))))
    ∧ upstreamJson = pluginConfigJsonToString map_to_list ["id"; "created_at"] None
    ∧ normalizeDataJSON upstreamJson = upstreamJson.
Proof.
  apply (primary_read_found map_to_list ["id"; "created_at"] remote_plugin known
           (mkPlugin "p1" "acl" "" "" "s1" "" None)).
  - apply literal_Float64_laws.
  - reflexivity.
  - done.
  - reflexivity.
Defined.

(** X19: when the scoped create succeeds remotely and neither the
    consumer, nor the plugin name, nor the identifier the remote assigned
    contains ['|'], the identity is set to the three joined by ['|'] and
    the read that follows asks the remote for exactly that triple: two
    calls are made, [CreatePluginConfig] and then [GetPluginConfig]. *)
Theorem scoped_create_then_read `{Float64}
    (range : gmap string value → list (string * value))
    (computedPluginProperties : list string) (meta : KongAdminClient)
    (w : world) (config : string) (c : ConsumerPluginConfig) :
  let consumerId := readStringFromResource (data w) "consumer_id" in
  let pluginName := readStringFromResource (data w) "plugin_name" in
  generatePluginConfig range (readMapFromResource (data w) "config")
    (readStringFromResource (data w) "config_json") = Returns (Ok config) →
  CreatePluginConfig meta consumerId pluginName config = Ok (Some c) →
  strings.Contains consumerId pipe = false →
  strings.Contains pluginName pipe = false →
  strings.Contains (cpcId c) pipe = false →
  ∃ e' w', resourceKongConsumerPluginConfigCreate range computedPluginProperties meta w
           = Returns (e', w')
    ∧ Id (data w') = buildId consumerId pluginName (cpcId c)
    ∧ calls w' = calls w ++ [CallCreatePluginConfig consumerId pluginName config;
                             CallGetPluginConfig consumerId pluginName (cpcId c)].
Proof.
  intros consumerId pluginName Hgen Hcreate Ha Hb Hc.
  unfold resourceKongConsumerPluginConfigCreate.
  fold consumerId pluginName. rewrite Hgen, Hcreate.
  set (w1 := update (SetId (buildId consumerId pluginName (cpcId c)))
               (called (CallCreatePluginConfig consumerId pluginName config) w)).
  destruct (scoped_read_calls range computedPluginProperties meta w1
              (mkIdFields consumerId pluginName (cpcId c)))
    as (e'&w'&Hread&Hcalls&Hid&_).
  { by apply splitIdIntoFields_build. }
  exists e', w'. rewrite Hread. split_and!; [done|by rewrite Hid|].
  rewrite Hcalls. simpl. by rewrite <-(assoc_L (++)).
Qed.

Definition declared : world :=
  mkWorld
    (mkResourceData ""
       {[ "consumer_id" := "c1"; "plugin_name" := "rate-limiting" ]}
       {[ "config" := minute10 ]})
    [].

Lemma scoped_create_then_read_witness :
  ∃ e' w', resourceKongConsumerPluginConfigCreate map_to_list ["id"]
             (remote_with (js "{'minute':'10'}")) declared
           = Returns (e', w')
    ∧ Id (data w') = "c1|rate-limiting|abc"
    ∧ calls w' = [CallCreatePluginConfig "c1" "rate-limiting" "minute=10";
                  CallGetPluginConfig "c1" "rate-limiting" "abc"].
Proof.
  apply (scoped_create_then_read map_to_list ["id"]
           (remote_with (js "{'minute':'10'}")) declared "minute=10"
           (mkConsumerPluginConfig "abc" (js "{'minute':'10'}")));
    reflexivity.
Defined.

(** X20: when the remote call of the scoped create succeeds but a
    component of the identity contains ['|'], or the remote returns no
    object, the create returns [MalformedIdentifier] for the identity it
    has just stored, after the single call [CreatePluginConfig]:
    [GetPluginConfig] is not invoked. *)
Theorem scoped_create_unreadable `{Float64}
    (range : gmap string value → list (string * value))
    (computedPluginProperties : list string) (meta : KongAdminClient)
    (w : world) (config : string) (r : option ConsumerPluginConfig) :
  let consumerId := readStringFromResource (data w) "consumer_id" in
  let pluginName := readStringFromResource (data w) "plugin_name" in
  let newId := match r with
               | Some c => buildId consumerId pluginName (cpcId c)
               | None => ""
               end in
  generatePluginConfig range (readMapFromResource (data w) "config")
    (readStringFromResource (data w) "config_json") = Returns (Ok config) →
  CreatePluginConfig meta consumerId pluginName config = Ok r →
  match r with
  | Some c => strings.Contains consumerId pipe || strings.Contains pluginName pipe
              || strings.Contains (cpcId c) pipe = true
  | None => True
  end →
  resourceKongConsumerPluginConfigCreate range computedPluginProperties meta w
  = Returns (Some (MalformedIdentifier newId),
             mkWorld (SetId newId (data w))
               (calls w ++ [CallCreatePluginConfig consumerId pluginName config])).
Proof.
  intros consumerId pluginName newId Hgen Hcreate Hr.
  unfold resourceKongConsumerPluginConfigCreate.
  fold consumerId pluginName. rewrite Hgen, Hcreate.
  assert (length (strings.Split newId pipe) ≠ 3) as Hlen.
  { subst newId. destruct r as [c|]; [|by vm_compute].
    rewrite Split_length, count_buildId.
    repeat (apply orb_true_iff in Hr as [Hr|Hr]);
      apply Contains_count in Hr; lia. }
  destruct r as [c|]; subst newId;
    unfold resourceKongConsumerPluginConfigRead, update, called; cbn [data Id SetId rdId];
    by rewrite splitIdIntoFields_Err.
Qed.

Lemma scoped_create_unreadable_witness :
  resourceKongConsumerPluginConfigCreate map_to_list ["id"] empty_remote declared
  = Returns (Some (MalformedIdentifier ""),
             mkWorld (SetId "" (data declared))
               [CallCreatePluginConfig "c1" "rate-limiting" "minute=10"]).
Proof.
  apply (scoped_create_unreadable map_to_list ["id"] empty_remote declared
           "minute=10" None); done.
Defined.

(** X21: when the remote refuses the scoped create, the error is returned
    wrapped, after that one call, and the resource data, identity
    included, is as it was. *)
Theorem scoped_create_remote_error `{Float64}
    (range : gmap string value → list (string * value))
    (computedPluginProperties : list string) (meta : KongAdminClient)
    (w : world) (config : string) (err : error) :
  let consumerId := readStringFromResource (data w) "consumer_id" in
  let pluginName := readStringFromResource (data w) "plugin_name" in
  generatePluginConfig range (readMapFromResource (data w) "config")
    (readStringFromResource (data w) "config_json") = Returns (Ok config) →
  CreatePluginConfig meta consumerId pluginName config = Err err →
  resourceKongConsumerPluginConfigCreate range computedPluginProperties meta w
  = Returns (Some (Errorf "failed to create kong consumer plugin config, error: "
                     (Some err)),
             mkWorld (data w)
               (calls w ++ [CallCreatePluginConfig consumerId pluginName config])).
Proof.
  intros consumerId pluginName Hgen Hcreate.
  unfold resourceKongConsumerPluginConfigCreate.
  fold consumerId pluginName. by rewrite Hgen, Hcreate.
Qed.

Definition refusing_remote : KongAdminClient :=
  mkKongAdminClient (λ _, Ok None) (λ _ _ _, Err (RemoteError "409"))
    (λ _ _ _, Ok None).

Lemma scoped_create_remote_error_witness :
  resourceKongConsumerPluginConfigCreate map_to_list ["id"] refusing_remote declared
  = Returns (Some (Errorf "failed to create kong consumer plugin config, error: "
                     (Some (RemoteError "409"))),
             mkWorld (data declared)
               [CallCreatePluginConfig "c1" "rate-limiting" "minute=10"]).
Proof.
  apply (scoped_create_remote_error map_to_list ["id"] refusing_remote declared
           "minute=10" (RemoteError "409")); reflexivity.
Defined.

(** ** The operations that change the remote *)

Section writes_more.
Context `{Float64}.
Variable range : gmap string value → list (string * value).
Variable computedPluginProperties : list string.
Variable meta : KongAdminClient.

(** The primary read: one call, and an identity that is kept or
    cleared. *)
Lemma primary_read_calls w :
  ∃ e' w', resourceKongPluginRead range computedPluginProperties meta w = (e', w')
    ∧ calls w' = calls w ++ [CallGetById (Id (data w))]
    ∧ (Id (data w') = Id (data w) ∨ Id (data w') = "").
Proof.
  unfold resourceKongPluginRead, called. cbn [data].
  destruct (GetById meta (Id (data w))) as [[p|]|err]; do 2 eexists;
    (split_and!; [done..|]); auto.
Qed.

End writes_more.

(** X22: when the request cannot be built, the create and the update of
    the primary attachment return the error of the encoder as it is,
    whatever the remote would answer: no call is recorded and the resource
    data is as it was. *)
Theorem primary_write_aborts `{Float64}
    (range : gmap string value → list (string * value))
    (render : PluginRequest → string)
    (computedPluginProperties : list string)
    (meta : KongAdminClient) (metaw : KongAdminWrites)
    (w : world) (writes : list write_call) (err : error) :
  (createKongPluginRequestFromResourceData (data w)).2 = Some err →
  resourceKongPluginCreate range render computedPluginProperties meta metaw w writes
    = Returns (Some err, w, writes)
  ∧ resourceKongPluginUpdate range computedPluginProperties meta metaw w writes
    = (Some err, w, writes).
Proof.
  intros Herr. unfold resourceKongPluginCreate, resourceKongPluginUpdate.
  destruct (createKongPluginRequestFromResourceData (data w)) as [req e].
  simpl in Herr. by subst e.
Qed.

Definition no_writes : KongAdminWrites :=
  mkKongAdminWrites (λ _, Ok None) (λ _ _, Ok None) (λ _, None) (λ _ _ _, None).

Lemma primary_write_aborts_witness :
  resourceKongPluginCreate map_to_list (λ _, "") ["id"] empty_remote no_writes
    (mkWorld unparsable_blob []) []
    = Returns (Some (Errorf "failed to unmarshal config_json, err: " (Some SyntaxError)),
               mkWorld unparsable_blob [], [])
  ∧ resourceKongPluginUpdate map_to_list ["id"] empty_remote no_writes
      (mkWorld unparsable_blob []) []
    = (Some (Errorf "failed to unmarshal config_json, err: " (Some SyntaxError)),
       mkWorld unparsable_blob [], []).
Proof.
  apply (primary_write_aborts map_to_list (λ _, "") ["id"] empty_remote no_writes
           (mkWorld unparsable_blob []) []).
  vm_compute. reflexivity.
Defined.



Definition fresh_plugin : world :=
  mkWorld (mkResourceData "" {[ "name" := "acl"; "service_id" := "s1" ]} ∅) [].


(** X24: when the remote answers the create with neither a plugin nor an
    error, the create panics, on the identifier of a nil plugin; the
    update, which drops the plugin it is answered, goes on to the read. *)
Theorem primary_create_nil_panics `{Float64}
    (range : gmap string value → list (string * value))
    (render : PluginRequest → string)
    (computedPluginProperties : list string)
    (meta : KongAdminClient) (metaw : KongAdminWrites)
    (w : world) (writes : list write_call) (pluginRequest : PluginRequest) :
  createKongPluginRequestFromResourceData (data w) = (pluginRequest, None) →
  (Create metaw pluginRequest = Ok None →
     resourceKongPluginCreate range render computedPluginProperties meta metaw
       w writes = Panics)
  ∧ (UpdateById metaw (Id (data w)) pluginRequest = Ok None →
       ∃ e' w', resourceKongPluginUpdate range computedPluginProperties meta metaw
                  w writes
                = (e', w', writes ++ [CallUpdateById (Id (data w)) pluginRequest])
         ∧ calls w' = calls w ++ [CallGetById (Id (data w))]).
Proof.
  intros Hreq. split.
  - intros Hcreate. unfold resourceKongPluginCreate. by rewrite Hreq, Hcreate.
  - intros Hupdate. unfold resourceKongPluginUpdate. rewrite Hreq, Hupdate.
    destruct (primary_read_calls range computedPluginProperties meta w)
      as (e'&w'&Hread&Hcalls&_).
    rewrite Hread. by exists e', w'.
Qed.

Lemma primary_create_nil_panics_witness :
  resourceKongPluginCreate map_to_list (λ _, "") ["id"] empty_remote no_writes
    fresh_plugin [] = Panics.
Proof.
  destruct (primary_create_nil_panics map_to_list (λ _, "") ["id"] empty_remote
              no_writes fresh_plugin [] (mkPluginRequest "acl" "" "" "s1" "" None))
    as [Hpanic _]; [reflexivity|].
  apply Hpanic. reflexivity.
Defined.

(** X25: when the remote refuses the create or the update of the primary
    attachment, the error is returned wrapped after that one call: the
    plugin is not read back and the resource data, identity included, is
    as it was. *)
Theorem primary_write_remote_error `{Float64}
    (range : gmap string value → list (string * value))
    (render : PluginRequest → string)
    (computedPluginProperties : list string)
    (meta : KongAdminClient) (metaw : KongAdminWrites)
    (w : world) (writes : list write_call)
    (pluginRequest : PluginRequest) (err : error) :
  createKongPluginRequestFromResourceData (data w) = (pluginRequest, None) →
  (Create metaw pluginRequest = Err err →
     resourceKongPluginCreate range render computedPluginProperties meta metaw
       w writes
     = Returns (Some (Errorf ("failed to create kong plugin: "
                              +:+ render pluginRequest +:+ " error: ") (Some err)),
                w, writes ++ [CallCreate pluginRequest]))
  ∧ (UpdateById metaw (Id (data w)) pluginRequest = Err err →
       resourceKongPluginUpdate range computedPluginProperties meta metaw w writes
       = (Some (Errorf "error updating kong plugin: " (Some err)),
          w, writes ++ [CallUpdateById (Id (data w)) pluginRequest])).
Proof.
  intros Hreq. split; intros Herr.
  - unfold resourceKongPluginCreate. by rewrite Hreq, Herr.
  - unfold resourceKongPluginUpdate. by rewrite Hreq, Herr.
Qed.

Definition refusing_writes : KongAdminWrites :=
  mkKongAdminWrites (λ _, Err (RemoteError "409")) (λ _ _, Err (RemoteError "409"))
    (λ _, Some (RemoteError "409")) (λ _ _ _, Some (RemoteError "409")).

Lemma primary_write_remote_error_witness :
  resourceKongPluginCreate map_to_list (λ _, "request") ["id"] empty_remote
    refusing_writes fresh_plugin []
  = Returns (Some (Errorf ("failed to create kong plugin: "
                           +:+ "request" +:+ " error: ") (Some (RemoteError "409"))),
             fresh_plugin, [] ++ [CallCreate (mkPluginRequest "acl" "" "" "s1" "" None)]).
Proof.
  destruct (primary_write_remote_error map_to_list (λ _, "request") ["id"]
              empty_remote refusing_writes fresh_plugin []
              (mkPluginRequest "acl" "" "" "s1" "" None) (RemoteError "409"))
    as [Hcreate _]; [reflexivity|].
  apply Hcreate. reflexivity.
Defined.

(** X26: the delete of the primary attachment makes exactly one call,
    [DeleteById] with the current identity, and leaves the resource data as
    it was, identity included, whether the remote reports an error, which
    is returned wrapped, or not. *)
Theorem primary_delete_one_call `{Float64}
    (metaw : KongAdminWrites) (w : world) (writes : list write_call) :
  ∃ e', resourceKongPluginDelete metaw w writes
        = (e', w, writes ++ [CallDeleteById (Id (data w))])
    ∧ e' = (λ err, Errorf "could not delete kong plugin: " (Some err))
             <$> DeleteById metaw (Id (data w)).
Proof.
  unfold resourceKongPluginDelete.
  destruct (DeleteById metaw (Id (data w))); by eexists.
Qed.

(** X27: the delete of a scoped attachment whose identity does not split
    into three parts fails with [MalformedIdentifier] without a call; for
    an identity built by [buildId] from parts without ['|'], it makes
    exactly one call, [DeletePluginConfig] with those parts; either way
    the resource data is as it was. *)
Theorem scoped_delete_calls `{Float64}
    (metaw : KongAdminWrites) (w : world) (writes : list write_call) :
  (length (strings.Split (Id (data w)) pipe) ≠ 3 →
     resourceKongConsumerPluginConfigDelete metaw w writes
     = (Some (MalformedIdentifier (Id (data w))), w, writes))
  ∧ (∀ a b c,
       Id (data w) = buildId a b c →
       strings.Contains a pipe = false → strings.Contains b pipe = false →
       strings.Contains c pipe = false →
       ∃ e', resourceKongConsumerPluginConfigDelete metaw w writes
             = (e', w, writes ++ [CallDeletePluginConfig a b c])
         ∧ e' = (λ err, Errorf "could not delete kong consumer plugin config: "
                          (Some err))
                  <$> DeletePluginConfig metaw a b c).
Proof.
  unfold resourceKongConsumerPluginConfigDelete. split.
  - intros Hlen. by rewrite splitIdIntoFields_Err.
  - intros a b c -> Ha Hb Hc. rewrite splitIdIntoFields_build by done.
    cbn [consumerId pluginName id].
    destruct (DeletePluginConfig metaw a b c); by eexists.
Qed.

Lemma scoped_delete_calls_witness :
  resourceKongConsumerPluginConfigDelete no_writes imported_bad []
  = (Some (MalformedIdentifier "c1|rate-limiting"), imported_bad, [])
  ∧ ∃ e', resourceKongConsumerPluginConfigDelete no_writes stored []
          = (e', stored, [] ++ [CallDeletePluginConfig "c1" "rate-limiting" "abc"])
      ∧ e' = (λ err, Errorf "could not delete kong consumer plugin config: "
                       (Some err))
               <$> DeletePluginConfig no_writes "c1" "rate-limiting" "abc".
Proof.
  split.
  - apply (scoped_delete_calls no_writes imported_bad []). by vm_compute.
  - apply (scoped_delete_calls no_writes stored [] ); reflexivity.
Defined.
